(** * paddock_etl: the aggregation rule engine, the spatial matcher and the
    normaliser, embedded from [data_processing.py] and [spatial_matching.py].

    Conventions of the embedding.
    - A JSON scalar stored in a record's [data] dict is a [value].  Python
      [bool] is a subclass of [int], so [isinstance(v, (int, float))] holds
      for booleans too.
    - A Python float is an IEEE-754 binary64 number: a [spec_float] of
      the Standard Library, with its operations at precision 53 and
      maximal exponent 1024 ([SFadd], [SFdiv], [SFltb], ...), which round
      to nearest, ties to even.  [float()] rounds an [int] the same way and
      raises [OverflowError] on one outside the range of a double.
    - The builtin [sum] belongs to the interpreter, and its float loop
      changed with CPython 3.12; [CPython] says which loop runs, and the
      properties hold for both.
    - An exception is a value of [exn]; [try ... except Exception] is
      [try_except].
    - A pandas frame is the list of its rows.  shapely and [json.dumps]
      are interfaces ([Shapely], [Json]); [box_shapely] and [keys_json]
      are instances to compute with. *)

From Stdlib Require Import ZArith QArith Lia SpecFloat.
From stdpp Require Import gmap strings list sorting.

Local Open Scope Z_scope.
#[local] Set Warnings "-clear-no-such-hyp".

(** ** Values and exceptions *)

Inductive value : Type :=
| VNone
| VBool (b : bool)
| VInt (z : Z)
| VFloat (f : spec_float)
| VStr (s : string).

Inductive exn (A : Type) : Type :=
| Ok (a : A)
| Raised (what : string).
Arguments Ok {A} a.
Arguments Raised {A} what.

#[global] Instance exn_ret : MRet exn := fun A a => Ok a.
#[global] Instance exn_bind : MBind exn := fun A B k m =>
  match m with Ok a => k a | Raised e => Raised e end.
#[global] Instance exn_fmap : FMap exn := fun A B f m =>
  match m with Ok a => Ok (f a) | Raised e => Raised e end.

(** [try: m except Exception: h] *)
Definition try_except {A} (m : exn A) (h : exn A) : exn A :=
  match m with Ok a => Ok a | Raised _ => h end.

Fixpoint mapM {A B} (f : A → exn B) (l : list A) : exn (list B) :=
  match l with
  | [] => Ok []
  | x :: r => y ← f x ; ys ← mapM f r ; Ok (y :: ys)
  end.

(** ** Python numbers *)

(** binary64: the operations of [SpecFloat] at precision 53 and maximal
    exponent 1024. *)
Abbreviation b64_add := (SFadd 53 1024).
Abbreviation b64_sub := (SFsub 53 1024).
Abbreviation b64_div := (SFdiv 53 1024).
Abbreviation b64_eqb := SFeqb.
Abbreviation b64_ltb := SFltb.
Abbreviation b64_leb := SFleb.
Abbreviation b64_of_Z := (fun z : Z => binary_normalize 53 1024 z 0 false).
Abbreviation b64_zero := (S754_zero false).

(** First integer that [float()] rejects: halfway between the largest
    double and [2^1024], which rounds to even, that is, up. *)
Definition float_overflow_bound : Z := 2 ^ 1024 - 2 ^ 970.

(** [float(z)]: the nearest double. *)
Definition float_of_int (z : Z) : exn spec_float :=
  if Z.abs z <? float_overflow_bound then Ok (b64_of_Z z)
  else Raised "OverflowError".

(** [isinstance(v, (int, float))] *)
Definition is_numeric (v : value) : bool :=
  match v with
  | VBool _ | VInt _ | VFloat _ => true
  | VNone | VStr _ => false
  end.

(** [float(v)] on a value that passed [is_numeric]. *)
Definition py_float (v : value) : exn spec_float :=
  match v with
  | VBool b => Ok (b64_of_Z (if b then 1 else 0))
  | VInt z => float_of_int z
  | VFloat f => Ok f
  | VNone => Raised "TypeError"
  | VStr _ => Raised "ValueError"
  end.

(** The builtin [sum] is the interpreter's: up to CPython 3.11 it adds
    floats from left to right; from CPython 3.12 on it carries the
    rounding errors along in a compensation term (Neumaier's algorithm)
    and adds that term at the end. *)
Class CPython := { neumaier_sum : bool }.

Definition cpython_3_11 : CPython := {| neumaier_sum := false |}.
Definition cpython_3_12 : CPython := {| neumaier_sum := true |}.

(** One turn of the compensated loop, on [(f_result, c)]. *)
Definition neumaier_step (acc : spec_float * spec_float) (x : spec_float)
  : spec_float * spec_float :=
  let '(f_result, c) := acc in
  let t := b64_add f_result x in
  if b64_leb (SFabs x) (SFabs f_result)
  then (t, b64_add c (b64_add (b64_sub f_result t) x))
  else (t, b64_add c (b64_add (b64_sub x t) f_result)).

(** [c && isfinite(c)] *)
Definition finite_nonzero (c : spec_float) : bool :=
  match c with S754_finite _ _ _ => true | _ => false end.

(** [sum(gen)]: the accumulator starts as the int [0]; the first
    addition turns it into the float [0.0] and adds; the floats that
    follow go through the float loop of the interpreter. *)
Definition py_sum {py : CPython} (l : list spec_float) : value :=
  match l with
  | [] => VInt 0
  | x :: rest =>
    let first := b64_add b64_zero x in
    if neumaier_sum then
      let '(f_result, c) := fold_left neumaier_step rest (first, b64_zero) in
      VFloat (if finite_nonzero c then b64_add f_result c else f_result)
    else VFloat (fold_left b64_add rest first)
  end.

(** An int as the operand of a true division of ints, which Python
    rounds once, from the exact quotient. *)
Definition exact_int (z : Z) : spec_float :=
  match z with
  | Z0 => S754_zero false
  | Zpos p => S754_finite false p 0
  | Zneg p => S754_finite true p 0
  end.

(** [total / n] for the [total] that [py_sum] produced and an int [n]. *)
Definition py_truediv (total : value) (n : Z) : exn value :=
  if n =? 0 then Raised "ZeroDivisionError"
  else match total with
       | VFloat f => d ← float_of_int n ; Ok (VFloat (b64_div f d))
       | VInt z =>
         match b64_div (exact_int z) (exact_int n) with
         | S754_infinity _ => Raised "OverflowError"
         | q => Ok (VFloat q)
         end
       | _ => Raised "TypeError"
       end.

(** The number that a float stands for: a rational, or an infinity with
    its sign; NaN stands for none. *)
Inductive xnum : Type :=
| XFin (q : Q)
| XInf (negative : bool).

Definition float_value (f : spec_float) : option xnum :=
  match f with
  | S754_zero _ => Some (XFin 0)
  | S754_finite s m e =>
    let z := if s then Zneg m else Zpos m in
    Some (XFin (if 0 <=? e then inject_Z (z * 2 ^ e)
                else Qmake z (Z.to_pos (2 ^ (- e)))))
  | S754_infinity s => Some (XInf s)
  | S754_nan => None
  end.

Definition xnum_eqb (a b : xnum) : bool :=
  match a, b with
  | XFin p, XFin q => Qeq_bool p q
  | XInf s, XInf t => Bool.eqb s t
  | _, _ => false
  end.

(** Python [==] (and the matching hash) on scalars: numbers compare by
    the number they stand for, across [bool], [int] and [float]; NaN is
    equal to nothing. *)
Definition num_of (v : value) : option xnum :=
  match v with
  | VBool b => Some (XFin (inject_Z (if b then 1 else 0)))
  | VInt z => Some (XFin (inject_Z z))
  | VFloat f => float_value f
  | _ => None
  end.

Definition py_eqb (a b : value) : bool :=
  match a, b with
  | VNone, VNone => true
  | VStr s, VStr t => String.eqb s t
  | _, _ => match num_of a, num_of b with
            | Some x, Some y => xnum_eqb x y
            | _, _ => false
            end
  end.

(** ** [collections.Counter] and [most_common(1)] *)

(** A Counter is a dict: keys in insertion order, the first object of
    each equality class is the one kept as key.  A NaN equals nothing,
    itself included, and so every NaN entry is a key of its own. *)
Fixpoint counter_add (c : list (value * nat)) (v : value) : list (value * nat) :=
  match c with
  | [] => [(v, 1%nat)]
  | (k, n) :: r => if py_eqb k v then (k, S n) :: r else (k, n) :: counter_add r v
  end.

Definition Counter (l : list value) : list (value * nat) :=
  fold_left counter_add l [].

(** [max(items, key=count)]: the first item with the greatest count. *)
Fixpoint max_item (best : value * nat) (items : list (value * nat)) : value * nat :=
  match items with
  | [] => best
  | it :: r => max_item (if (snd best <? snd it)%nat then it else best) r
  end.

Definition most_common_1 (c : list (value * nat)) : list (value * nat) :=
  match c with
  | [] => []
  | it :: r => [max_item it r]
  end.

(** ** [DataProcessor._apply_aggregation_rule] *)

Definition is_not_none (v : value) : bool :=
  match v with VNone => false | _ => true end.

Definition clean_values (values : list value) : list value :=
  filter (fun v => is_not_none v = true) values.

(** [float(v) for v in clean_values if isinstance(v, (int, float))] *)
Definition numeric_floats (clean : list value) : exn (list spec_float) :=
  mapM py_float (filter (fun v => is_numeric v = true) clean).

(** Body of the [try] block. *)
Definition rule_body {py : CPython} (clean : list value) (rule : string) (paddock_count : Z)
  : exn value :=
  if String.eqb rule "sum" then
    fs ← numeric_floats clean ; Ok (py_sum fs)
  else if String.eqb rule "mean" then
    fs ← numeric_floats clean ;
    match fs with
    | [] => Ok VNone
    | _ => py_truediv (py_sum fs) (Z.of_nat (length fs))
    end
  else if String.eqb rule "divide_by_paddock_count" then
    fs ← numeric_floats clean ;
    let total := py_sum fs in
    if 0 <? paddock_count then py_truediv total paddock_count else Ok total
  else if String.eqb rule "first" then
    match clean with v :: _ => Ok v | [] => Raised "IndexError" end
  else if String.eqb rule "majority" then
    match most_common_1 (Counter clean) with
    | (v, _) :: _ => Ok v
    | [] => Raised "IndexError"
    end
  else
    match clean with v :: _ => Ok v | [] => Raised "IndexError" end.

Definition _apply_aggregation_rule {py : CPython} (values : list value) (rule : string)
    (paddock_count : Z) : exn value :=
  let clean := clean_values values in
  match clean with
  | [] => Ok VNone
  | _ =>
    try_except (rule_body clean rule paddock_count)
               (match clean with v :: _ => Ok v | [] => Ok VNone end)
  end.

(** ** Input rows and configuration *)

(** The geometry operations of shapely that [find_best_spatial_match]
    calls.  [intersection] answers [None] when shapely raises (an invalid
    polygon, say); the matcher catches that and skips the candidate. *)
Class Shapely (geom : Type) := {
  intersection : geom → geom → option geom;
  is_empty : geom → bool;
  area : geom → spec_float
}.

(** One row of the frame that [get_farm_data_with_geometries] returns.
    [data] is [None] for a value that is not a dict (SQL NULL). *)
Record row (geom : Type) := Row {
  id : Z;
  year : Z;
  namespace : string;
  data : option (gmap string value);
  data_paddock_id : string;
  geometry : geom;
  updated_at : Z
}.
Arguments Row {geom}.
Arguments id {geom}.
Arguments year {geom}.
Arguments namespace {geom}.
Arguments data {geom}.
Arguments data_paddock_id {geom}.
Arguments geometry {geom}.
Arguments updated_at {geom}.

Record ETLConfig := {
  min_overlap_threshold : spec_float;
  namespace_aggregation_rules : gmap string (gmap string string)
}.

(** ** [SpatialMatcher] *)

(** The matcher's attributes.  Of a reference row only the paddock id and
    the geometry are ever read again. *)
Record SpatialMatcher (geom : Type) := Matcher {
  reference_year : option Z;
  reference_paddocks : list (string * geom);
  paddock_mapping : gmap string string
}.
Arguments Matcher {geom}.
Arguments reference_year {geom}.
Arguments reference_paddocks {geom}.
Arguments paddock_mapping {geom}.

(** [SpatialMatcher.__init__] *)
Definition new_matcher {geom} : SpatialMatcher geom :=
  Matcher None [] ∅.

(** [gdf['year'].max()]; [None] is the NaN of an empty frame. *)
Definition max_year {geom} (gdf : list (row geom)) : option Z :=
  match gdf with
  | [] => None
  | r :: rest => Some (fold_left (fun m r' => Z.max m (year r')) rest (year r))
  end.

Definition determine_reference_year {geom} (self : SpatialMatcher geom)
    (gdf : list (row geom)) : SpatialMatcher geom :=
  Matcher (max_year gdf) (reference_paddocks self) (paddock_mapping self).

(** [gdf['year'] == self.reference_year] (never true against NaN). *)
Definition in_reference_year {geom} (ry : option Z) (r : row geom) : bool :=
  match ry with Some y => year r =? y | None => false end.

(** pandas sorts group keys; strings order by code point. *)
Definition str_le (a b : string) : Prop := String.leb a b = true.
#[global] Instance str_le_dec : RelDecision str_le :=
  fun a b => decide (String.leb a b = true).

(** First row of the frame with a given paddock id. *)
Definition first_with_id {geom} (p : string) (l : list (row geom))
  : option (row geom) :=
  List.find (fun r => String.eqb (data_paddock_id r) p) l.

(** [groupby('data_paddock_id').first().reset_index()]: one line per id,
    ids in sorted order.  [first()] takes the first entry that is not
    null; a row always carries a geometry here. *)
Definition groupby_first {geom} (l : list (row geom)) : list (string * geom) :=
  omap (fun p => r ← first_with_id p l; Some (p, geometry r))
       (merge_sort str_le (remove_dups (data_paddock_id <$> l))).

Definition create_reference_paddocks {geom} (self : SpatialMatcher geom)
    (gdf : list (row geom)) : SpatialMatcher geom :=
  let ref_data := List.filter (in_reference_year (reference_year self)) gdf in
  Matcher (reference_year self) (groupby_first ref_data) (paddock_mapping self).

(** One turn of the loop of [find_best_spatial_match].  The running
    maximum starts as the int [0], which compares as the float [0.0]. *)
Definition match_step {geom} `{Shapely geom} (historical_geom : geom)
    (acc : option string * spec_float) (ref_paddock : string * geom)
  : option string * spec_float :=
  let '(best_match, max_overlap) := acc in
  match intersection historical_geom (snd ref_paddock) with
  | None => acc
  | Some inter =>
    if is_empty inter then acc
    else
      let overlap_area := area inter in
      let historical_area := area historical_geom in
      if b64_eqb historical_area b64_zero then acc
      else
        let overlap_ratio := b64_div overlap_area historical_area in
        if b64_ltb max_overlap overlap_ratio
        then (Some (fst ref_paddock), overlap_ratio)
        else acc
  end.

Definition find_best_spatial_match {geom} `{Shapely geom}
    (self : SpatialMatcher geom) (historical_geom : geom)
  : option string * spec_float :=
  fold_left (match_step historical_geom) (reference_paddocks self) (None, b64_zero).

(** [drop_duplicates('data_paddock_id')]: the first row of each id, in
    frame order. *)
Fixpoint drop_duplicates {geom} (seen : list string) (l : list (row geom))
  : list (row geom) :=
  match l with
  | [] => []
  | r :: rest =>
    if bool_decide (data_paddock_id r ∈ seen) then drop_duplicates seen rest
    else r :: drop_duplicates (data_paddock_id r :: seen) rest
  end.

(** Truth value of [best_match]: [None] and the empty string are false. *)
Definition truthy_id (m : option string) : bool :=
  match m with
  | Some s => negb (String.eqb s "")
  | None => false
  end.

(** Body of the first loop of [create_paddock_mapping]. *)
Definition map_historical {geom} `{Shapely geom} (cfg : ETLConfig)
    (self : SpatialMatcher geom) (m : gmap string string) (paddock : row geom)
  : gmap string string :=
  let paddock_id := data_paddock_id paddock in
  let '(best_match, overlap_ratio) :=
    find_best_spatial_match self (geometry paddock) in
  match best_match with
  | Some b =>
    if truthy_id best_match && b64_leb (min_overlap_threshold cfg) overlap_ratio
    then <[paddock_id := b]> m
    else <[paddock_id := paddock_id]> m
  | None => <[paddock_id := paddock_id]> m
  end.

Definition create_paddock_mapping {geom} `{Shapely geom} (cfg : ETLConfig)
    (self : SpatialMatcher geom) (gdf : list (row geom)) : SpatialMatcher geom :=
  let historical_paddocks :=
    List.filter (fun r => negb (in_reference_year (reference_year self) r)) gdf in
  let unique_historical := drop_duplicates [] historical_paddocks in
  let m1 := fold_left (map_historical cfg self) unique_historical
                      (paddock_mapping self) in
  let m2 := fold_left (fun m rp => <[fst rp := fst rp]> m)
                      (reference_paddocks self) m1 in
  Matcher (reference_year self) (reference_paddocks self) m2.

(** Steps 2 of [PaddockETL.process_single_farm]: the three calls in a row
    on one frame. *)
Definition spatial_matching {geom} `{Shapely geom} (cfg : ETLConfig)
    (self : SpatialMatcher geom) (gdf : list (row geom)) : SpatialMatcher geom :=
  let s1 := determine_reference_year self gdf in
  let s2 := create_reference_paddocks s1 gdf in
  create_paddock_mapping cfg s2 gdf.

(** The dict that [get_mapping_stats] returns.  The count of reference
    paddocks is 0 as long as no reference set has been built. *)
Record MappingStats := Stats {
  total_paddocks : Z;
  self_mapped : Z;
  remapped : Z;
  stats_reference_year : option Z;
  reference_paddocks_count : Z
}.

Definition get_mapping_stats {geom} (self : SpatialMatcher geom) : MappingStats :=
  let total_mapped := Z.of_nat (size (paddock_mapping self)) in
  let self_mapped :=
    Z.of_nat (length (filter (fun kv => fst kv = snd kv)
                             (map_to_list (paddock_mapping self)))) in
  let remapped := total_mapped - self_mapped in
  Stats total_mapped self_mapped remapped (reference_year self)
        (Z.of_nat (length (reference_paddocks self))).

(** ** [DataProcessor] *)

(** [json.dumps] on a dict of scalars. *)
Class Json := { json_dumps : gmap string value → string }.

(** Values of [key] over the rows of a group whose [data] is a dict that
    has the key, in row order. *)
Definition values_of_key {geom} (group : list (row geom)) (key : string)
  : list value :=
  omap (fun r => d ← data r; d !! key) group.

(** [all_keys]: the union of the keys of the dicts of a group. *)
Definition all_keys {geom} (group : list (row geom)) : gset string :=
  fold_left (fun s r => match data r with Some d => s ∪ dom d | None => s end)
            group ∅.

Definition combine_key {py : CPython} {geom} (aggregation_rules : gmap string string)
    (group : list (row geom)) (paddock_count : Z)
    (acc : exn (gmap string value)) (key : string) : exn (gmap string value) :=
  combined_data ← acc;
  let values := values_of_key group key in
  match values with
  | [] => Ok (<[key := VNone]> combined_data)
  | _ =>
    let rule := default "first"%string (aggregation_rules !! key) in
    v ← _apply_aggregation_rule values rule paddock_count;
    Ok (<[key := v]> combined_data)
  end.

Definition combine_namespace_data {py : CPython} {geom} (cfg : ETLConfig)
    (group : list (row geom)) (ns : string) (paddock_count : Z)
  : exn (option (gmap string value)) :=
  match group with
  | [r] => Ok (data r)
  | _ =>
    let aggregation_rules :=
      default ∅ (namespace_aggregation_rules cfg !! ns) in
    combined_data ←
      fold_left (combine_key aggregation_rules group paddock_count)
                (elements (all_keys group)) (Ok ∅);
    Ok (Some combined_data)
  end.

(** Grouping key of a row: [None] when the paddock id is not a key of the
    mapping (a NaN key, which [groupby] leaves out). *)
Definition group_key {geom} (paddock_mapping : gmap string string)
    (r : row geom) : option (string * Z * string) :=
  n ← paddock_mapping !! data_paddock_id r; Some (n, year r, namespace r).

Definition idx_leb (a b : string * Z) : bool :=
  match String.compare (fst a) (fst b) with
  | Lt => true
  | Gt => false
  | Eq => snd a <=? snd b
  end.
Definition idx_le (a b : string * Z) : Prop := idx_leb a b = true.
#[global] Instance idx_le_dec : RelDecision idx_le :=
  fun a b => decide (idx_leb a b = true).

Definition key_leb (a b : string * Z * string) : bool :=
  match String.compare (fst (fst a)) (fst (fst b)) with
  | Lt => true
  | Gt => false
  | Eq => match snd (fst a) ?= snd (fst b) with
          | Lt => true
          | Gt => false
          | Eq => String.leb (snd a) (snd b)
          end
  end.
Definition key_le (a b : string * Z * string) : Prop := key_leb a b = true.
#[global] Instance key_le_dec : RelDecision key_le :=
  fun a b => decide (key_leb a b = true).

(** [gdf.groupby(['normalized_paddock_id', 'year', 'namespace'])]: the
    keys in sorted order, each with its rows in frame order. *)
Definition groupby {geom} (paddock_mapping : gmap string string)
    (gdf : list (row geom)) : list ((string * Z * string) * list (row geom)) :=
  (fun k => (k, filter (fun r => group_key paddock_mapping r = Some k) gdf))
  <$> merge_sort key_le (remove_dups (omap (group_key paddock_mapping) gdf)).

(** One dict appended to [result_data]. *)
Record result_row := ResultRow {
  r_normalized_paddock_id : string;
  r_year : Z;
  r_namespace : string;
  r_data : option string;
  r_original_paddock_count : nat
}.

(** Truth value of [combined_data]: [None] and the empty dict are false. *)
Definition truthy_data (d : option (gmap string value)) : bool :=
  match d with
  | Some m => match map_to_list m with [] => false | _ => true end
  | None => false
  end.

Definition normalize_group {py : CPython} {geom} `{Json} (cfg : ETLConfig)
    (g : (string * Z * string) * list (row geom)) : exn result_row :=
  let '((norm_paddock_id, yr, ns), group) := g in
  let original_paddock_count :=
    length (remove_dups (data_paddock_id <$> group)) in
  combined_data ←
    combine_namespace_data cfg group ns (Z.of_nat original_paddock_count);
  Ok (ResultRow norm_paddock_id yr ns
        (if truthy_data combined_data
         then json_dumps <$> combined_data else None)
        original_paddock_count).

(** The frame that [normalize_farm_data] returns: the namespace columns
    and, per (normalized_paddock_id, year), one cell per column. *)
Record table := Table {
  columns : list string;
  rows : list ((string * Z) * list (option string))
}.

Definition cell_of (kept : list result_row) (k : string * Z) (c : string)
  : option string :=
  r ← List.find (fun r => bool_decide ((r_normalized_paddock_id r, r_year r) = k
                                      ∧ r_namespace r = c)) kept;
  r_data r.

(** [pivot_table(index=[normalized_paddock_id, year], columns='namespace',
    values='data', aggfunc='first')] with pandas' default [dropna=True]:
    entries whose value is null are dropped before the reshape. *)
Definition pivot_table (result_df : list result_row) : table :=
  let kept := List.filter (fun r => bool_decide (is_Some (r_data r))) result_df in
  let index :=
    merge_sort idx_le
      (remove_dups ((fun r => (r_normalized_paddock_id r, r_year r)) <$> kept)) in
  let cols := merge_sort str_le (remove_dups (r_namespace <$> kept)) in
  Table cols ((fun k => (k, cell_of kept k <$> cols)) <$> index).

Definition result_data {py : CPython} {geom} `{Json} (cfg : ETLConfig)
    (gdf : list (row geom)) (paddock_mapping : gmap string string)
  : exn (list result_row) :=
  mapM (normalize_group cfg) (groupby paddock_mapping gdf).

Definition normalize_farm_data {py : CPython} {geom} `{Json} (cfg : ETLConfig)
    (gdf : list (row geom)) (paddock_mapping : gmap string string) : exn table :=
  rd ← result_data cfg gdf paddock_mapping;
  match rd with
  | [] => Ok (Table [] [])
  | _ => Ok (pivot_table rd)
  end.

(** Content of the cell of row [k] and column [ns]; [None] for a null
    cell, a missing row or a missing column. *)
Definition cell (t : table) (k : string * Z) (ns : string) : option string :=
  cells ← snd <$> List.find (fun r => bool_decide (fst r = k)) (rows t);
  i ← list_find (fun c => c = ns) (columns t);
  mjoin (cells !! fst i).

(** ** A concrete geometry: axis-parallel boxes on the integer grid *)

Record box := Box { x0 : Z; y0 : Z; x1 : Z; y1 : Z }.

Definition box_is_empty (b : box) : bool :=
  (x1 b <? x0 b) || (y1 b <? y0 b).

#[global] Instance box_shapely : Shapely box := {|
  intersection a b :=
    Some (Box (Z.max (x0 a) (x0 b)) (Z.max (y0 a) (y0 b))
              (Z.min (x1 a) (x1 b)) (Z.min (y1 a) (y1 b)));
  is_empty := box_is_empty;
  area b := if box_is_empty b then b64_zero
            else b64_of_Z ((x1 b - x0 b) * (y1 b - y0 b))
|}.

(** * Specifications

    The properties of the specification, stated over the definitions
    above, and the sample farms they are exercised on. *)

(** ** The aggregation rule engine *)

(** Arithmetic sum of a list of rationals. *)
Definition Qsum (l : list Q) : Q := fold_right Qplus 0%Q l.

(** The rational that a finite number stands for. *)
Definition exact_value (v : value) : option Q :=
  match num_of v with
  | Some (XFin q) => Some q
  | _ => None
  end.

(** The numeric entries of a list of raw values, as rationals. *)
Definition numeric_subset (values : list value) : list Q := omap exact_value values.

(** An entry that is an int, a float or a bool, as the double that
    [float()] makes of it; another entry is no number. *)
Definition as_double (v : value) : option spec_float :=
  match v with
  | VBool b => Some (binary_normalize 53 1024 (if b then 1 else 0) 0 false)
  | VInt z => Some (binary_normalize 53 1024 z 0 false)
  | VFloat f => Some f
  | VNone | VStr _ => None
  end.

(** The numeric entries of a list of raw values, as doubles. *)
Definition numeric_doubles (values : list value) : list spec_float :=
  omap as_double values.

(** Sum in double precision, from left to right, starting from [0.0]. *)
Definition ieee_sum (l : list spec_float) : spec_float :=
  fold_left (SFadd 53 1024) l (S754_zero false).

(** Sum in double precision with a compensation term: each addition
    [t = f + x] is followed by the recovery of what it lost, computed
    from the larger of the two operands, and the compensation is added
    at the end when it is finite and not zero. *)
Fixpoint compensated_loop (f c : spec_float) (l : list spec_float)
  : spec_float * spec_float :=
  match l with
  | [] => (f, c)
  | x :: rest =>
    let t := SFadd 53 1024 f x in
    let lost := if SFleb (SFabs x) (SFabs f)
                then SFadd 53 1024 (SFsub 53 1024 f t) x
                else SFadd 53 1024 (SFsub 53 1024 x t) f in
    compensated_loop t (SFadd 53 1024 c lost) rest
  end.

Definition compensated_sum (l : list spec_float) : spec_float :=
  match l with
  | [] => S754_zero false
  | x :: rest =>
    let '(f, c) := compensated_loop (SFadd 53 1024 (S754_zero false) x)
                                    (S754_zero false) rest in
    match c with
    | S754_finite _ _ _ => SFadd 53 1024 f c
    | _ => f
    end
  end.

(** The sum of a list of doubles as the interpreter computes it. *)
Definition double_sum {py : CPython} (l : list spec_float) : spec_float :=
  if neumaier_sum then compensated_sum l else ieee_sum l.

(** Every int of the list converts to a double. *)
Definition in_float_range (v : value) : Prop :=
  match v with
  | VInt z => Z.abs z < float_overflow_bound
  | _ => True
  end.

(** The list without its null entries. *)
Fixpoint without_none (values : list value) : list value :=
  match values with
  | [] => []
  | VNone :: rest => without_none rest
  | v :: rest => v :: without_none rest
  end.

(** Some entry of the list is not null. *)
Definition some_value (values : list value) : Prop :=
  ∃ x, x ∈ values ∧ x ≠ VNone.

(** No entry of the list is the float NaN. *)
Definition no_nan (values : list value) : Prop :=
  Forall (fun v => v ≠ VFloat S754_nan) values.

(** What C7 says of a list of values, as it is written: the sum of the
    numbers that the numeric entries stand for. *)
Definition sum_rule_spec {py : CPython} (values : list value) (n : Z) : Prop :=
  ∃ v q, _apply_aggregation_rule values "sum" n = Ok v
         ∧ exact_value v = Some q ∧ (q == Qsum (numeric_subset values))%Q.

(** What C3 says of a rule name, a list of values and a count. *)
Definition divide_rule_spec {py : CPython} (rule : string) (values : list value) (n : Z) : Prop :=
  ∃ v q, _apply_aggregation_rule values rule n = Ok v
         ∧ exact_value v = Some q
         ∧ (q == if 0 <? n then Qsum (numeric_subset values) / inject_Z n
                 else Qsum (numeric_subset values))%Q.

Definition known_rule (rule : string) : Prop :=
  rule ∈ ["sum"; "mean"; "divide_by_paddock_count"; "first"; "majority"]%string.

(** Number of entries of [l] equal to [x] for Python's [==]. *)
Definition freq (x : value) (l : list value) : nat :=
  length (List.filter (py_eqb x) l).

(** The items of a Counter built from [l]: the counts are frequencies,
    the keys are pairwise different, every entry of [l] has its key, and
    the keys come in the order of their first occurrence in [l]. *)
Record counter_inv (l : list value) (c : list (value * nat)) : Prop := {
  inv_count : ∀ i k n, c !! i = Some (k, n) → n = freq k l;
  inv_distinct : ∀ i j k n k' n', i ≠ j →
    c !! i = Some (k, n) → c !! j = Some (k', n') → py_eqb k k' = false;
  inv_first : ∀ i k n, c !! i = Some (k, n) →
    ∃ l1 l2, l = l1 ++ k :: l2
             ∧ ∀ x, x ∈ l1 → ∃ j k' n', (j < i)%nat ∧ c !! j = Some (k', n')
                                        ∧ py_eqb k' x = true;
  inv_cover : ∀ x, x ∈ l →
    ∃ i k n, c !! i = Some (k, n) ∧ py_eqb k x = true
}.

(** What C6 says of a list of values: the result is an entry of the
    list that is not null, no entry that is not null is more frequent, and
    every entry before it is null or strictly less frequent. *)
Definition majority_rule_spec {py : CPython} (values : list value) (n : Z) : Prop :=
  ∃ r l1 l2,
    _apply_aggregation_rule values "majority" n = Ok r
    ∧ r ≠ VNone
    ∧ values = l1 ++ r :: l2
    ∧ (∀ x, x ∈ values → x ≠ VNone → (freq x values ≤ freq r values)%nat)
    ∧ (∀ x, x ∈ l1 → x = VNone ∨ (freq x values < freq r values)%nat).
(** ** The spatial matcher *)

(** Overlap ratio of a candidate that is not skipped: the intersection
    is computed and not empty, and the historical area is not zero; the
    ratio is the area of the intersection divided by the historical
    area, in double precision. *)
Definition score {geom} `{Shapely geom} (historical_geom ref_geom : geom)
  : option spec_float :=
  match intersection historical_geom ref_geom with
  | None => None
  | Some inter =>
    if is_empty inter then None
    else if SFeqb (area historical_geom) (S754_zero false) then None
    else Some (SFdiv 53 1024 (area inter) (area historical_geom))
  end.

(** The answer of [find_best_spatial_match] over the candidates [refs]:
    either nobody scores above 0 and the answer is (None, 0), or the
    answer is a candidate with its score, which is above 0, above the
    score of every candidate before it, and not below the score of any
    candidate after it.  A score that is NaN is above nothing. *)
Definition best_match_spec {geom} `{Shapely geom} (historical_geom : geom)
    (refs : list (string * geom)) (res : option string * spec_float) : Prop :=
  (res = (None, S754_zero false)
   ∧ ∀ rp r, rp ∈ refs → score historical_geom (snd rp) = Some r →
             SFltb (S754_zero false) r = false)
  ∨ (∃ p g r l1 l2,
       res = (Some p, r) ∧ refs = l1 ++ (p, g) :: l2
       ∧ score historical_geom g = Some r ∧ SFltb (S754_zero false) r = true
       ∧ (∀ rp r', rp ∈ l1 → score historical_geom (snd rp) = Some r' →
                   SFleb r r' = false)
       ∧ (∀ rp r', rp ∈ l2 → score historical_geom (snd rp) = Some r' →
                   SFltb r r' = false)).

(** The ids of the frame, and the rows of the reference year. *)
Definition paddock_ids {geom} (gdf : list (row geom)) : list string :=
  data_paddock_id <$> gdf.

Definition reference_rows {geom} (gdf : list (row geom)) : list (row geom) :=
  List.filter (in_reference_year (max_year gdf)) gdf.

Definition historical_rows {geom} (gdf : list (row geom)) : list (row geom) :=
  List.filter (fun r => negb (in_reference_year (max_year gdf) r)) gdf.

(** The matcher once the reference year and the reference set are built. *)
Definition with_reference {geom} (self : SpatialMatcher geom)
    (gdf : list (row geom)) : SpatialMatcher geom :=
  create_reference_paddocks (determine_reference_year self gdf) gdf.

(** The id that the first loop of [create_paddock_mapping] stores for a
    historical row. *)
Definition historical_target {geom} `{Shapely geom} (cfg : ETLConfig)
    (self : SpatialMatcher geom) (paddock : row geom) : string :=
  match find_best_spatial_match self (geometry paddock) with
  | (Some b, overlap_ratio) =>
    if truthy_id (Some b) && SFleb (min_overlap_threshold cfg) overlap_ratio
    then b else data_paddock_id paddock
  | (None, _) => data_paddock_id paddock
  end.

(** What C2 says of a frame: each geometry kept is that of a most
    recently updated row of its paddock in the reference year. *)
Definition most_recent_spec {geom} (self : SpatialMatcher geom)
    (gdf : list (row geom)) : Prop :=
  ∀ p g, (p, g) ∈ reference_paddocks (with_reference self gdf) →
    ∃ r, r ∈ reference_rows gdf ∧ data_paddock_id r = p ∧ geometry r = g
         ∧ ∀ r', r' ∈ reference_rows gdf → data_paddock_id r' = p →
                 updated_at r' <= updated_at r.

(** Rows in the order of the query: most recently updated first. *)
Definition by_recency {geom} (l : list (row geom)) : Prop :=
  StronglySorted (fun a b => updated_at b <= updated_at a) l.


(** What C4 says of a frame. *)
Definition mapping_post_spec {geom} `{Shapely geom} (cfg : ETLConfig)
    (self : SpatialMatcher geom) (gdf : list (row geom)) : Prop :=
  (∀ h r, h ∉ paddock_ids (reference_rows gdf) →
          first_with_id h (historical_rows gdf) = Some r →
          paddock_mapping (spatial_matching cfg self gdf) !! h =
          Some (match find_best_spatial_match (with_reference self gdf) (geometry r) with
                | (Some b, overlap_ratio) =>
                  if SFleb (min_overlap_threshold cfg) overlap_ratio
                  then b else h
                | (None, _) => h
                end))
  ∧ (∀ p, p ∈ paddock_ids (reference_rows gdf) →
          paddock_mapping (spatial_matching cfg self gdf) !! p = Some p).

(** The configuration that [ETLConfig.__post_init__] builds.  The
    threshold is the double [0.3], which is 5404319552844595 / 2^54. *)
Definition default_config : ETLConfig := {|
  min_overlap_threshold := S754_finite false 5404319552844595 (-54);
  namespace_aggregation_rules :=
    {[ "livestock"%string :=
         {[ "animal_count"%string := "sum"%string;
            "stocking_rate"%string := "mean"%string;
            "animal_type"%string := "first"%string ]};
       "production"%string :=
         {[ "total_yield"%string := "sum"%string;
            "yield_per_ha"%string := "mean"%string;
            "crop_type"%string := "first"%string ]} ]}
|}.

(** The farm of the end-to-end scenario: A and B in 2023, C in 2022
    inside A. *)
Definition scenario_farm : list (row box) :=
  [ Row 1 2023 "production" (Some {[ "total_yield"%string := VInt 50 ]})
        "A" (Box 0 0 10 10) 30;
    Row 2 2023 "production" None "B" (Box 10 0 20 10) 20;
    Row 3 2022 "production" (Some {[ "total_yield"%string := VInt 100 ]})
        "C" (Box 0 0 5 10) 10 ].

(** A farm with a historical paddock that overlaps no reference paddock. *)
Definition remote_farm : list (row box) :=
  [ Row 1 2023 "production" None "A" (Box 0 0 10 10) 30;
    Row 2 2022 "production" None "H" (Box 100 100 110 110) 10 ].

(** A farm whose only reference paddock has the empty string as id. *)
Definition unnamed_farm : list (row box) :=
  [ Row 1 2023 "production" None "" (Box 0 0 10 10) 30;
    Row 2 2022 "production" None "H" (Box 0 0 5 10) 10 ].

(** ** The normaliser *)

(** Grouping key and row key of a line of [result_data]. *)
Definition r_key3 (r : result_row) : string * Z * string :=
  (r_normalized_paddock_id r, r_year r, r_namespace r).

Definition r_key2 (r : result_row) : string * Z :=
  (r_normalized_paddock_id r, r_year r).

(** Key of an input row under the identity mapping. *)
Definition row_key3 {geom} (r : row geom) : string * Z * string :=
  (data_paddock_id r, year r, namespace r).

(** The cell that a group leaves in [result_data]. *)
Definition data_cell `{Json} (d : option (gmap string value)) : option string :=
  if truthy_data d then json_dumps <$> d else None.

(** The lines that survive [dropna]. *)
Definition kept_rows (rd : list result_row) : list result_row :=
  List.filter (fun r => bool_decide (is_Some (r_data r))) rd.

(** The mapping sends every paddock id of the frame to itself. *)
Definition identity_mapping {geom} (paddock_mapping : gmap string string)
    (gdf : list (row geom)) : Prop :=
  ∀ r, r ∈ gdf → paddock_mapping !! data_paddock_id r = Some (data_paddock_id r).

(** Every (paddock, year, namespace) group holds exactly one record. *)
Definition single_record_groups {geom} (gdf : list (row geom)) : Prop :=
  NoDup (row_key3 <$> gdf).

(** What C9 says of a frame and a mapping: a row per (paddock, year) of
    the input, each record's data in the cell of its namespace. *)
Definition normalizer_identity_spec {py : CPython} {geom} `{Json} (cfg : ETLConfig)
    (gdf : list (row geom)) (paddock_mapping : gmap string string) : Prop :=
  ∃ t, normalize_farm_data cfg gdf paddock_mapping = Ok t
       ∧ (∀ r, r ∈ gdf →
               cell t (data_paddock_id r, year r) (namespace r)
               = json_dumps <$> data r)
       ∧ (∀ k, k ∈ (rows t).*1 ↔ ∃ r, r ∈ gdf ∧ k = (data_paddock_id r, year r))
       ∧ NoDup (rows t).*1.

(** A serialiser for the examples: the keys of the dict between braces. *)
Definition keys_json : Json :=
  {| json_dumps m := ("{" ++ String.concat "," (fst <$> map_to_list m) ++ "}")%string |}.

(** A farm with one record per (paddock, year, namespace); the record of
    B has an empty dict. *)
Definition settled_farm : list (row box) :=
  [ Row 1 2023 "production" (Some {[ "total_yield"%string := VInt 50 ]})
        "A" (Box 0 0 10 10) 30;
    Row 2 2023 "production" (Some ∅) "B" (Box 10 0 20 10) 20 ].

Definition settled_mapping : gmap string string :=
  {[ "A"%string := "A"%string; "B"%string := "B"%string ]}.

(** ** Further notions *)

(** Some record of the group has a dict with this key. *)
Definition has_key {geom} (group : list (row geom)) (key : string) : Prop :=
  ∃ r d, r ∈ group ∧ data r = Some d ∧ is_Some (d !! key).

(** The rule configured for a key of a namespace, "first" by default. *)
Definition key_rule (cfg : ETLConfig) (ns key : string) : string :=
  default "first"%string
    (default ∅ (namespace_aggregation_rules cfg !! ns) !! key).

(** The value that [combine_key] stores for a key. *)
Definition aggregated {py : CPython} {geom} (rules : gmap string string)
    (group : list (row geom)) (n : Z) (key : string) : value :=
  match values_of_key group key with
  | [] => VNone
  | vs => match _apply_aggregation_rule vs (default "first"%string (rules !! key)) n with
          | Ok v => v
          | Raised _ => VNone
          end
  end.

(** The records whose paddock id is a key of the mapping. *)
Definition mapped_rows {geom} (paddock_mapping : gmap string string)
    (gdf : list (row geom)) : list (row geom) :=
  filter (fun r => is_Some (paddock_mapping !! data_paddock_id r)) gdf.

(** Two records of 2022 that the mapping sends to one reference paddock. *)
Definition merged_records : list (row box) :=
  [ Row 1 2022 "livestock" (Some {[ "animal_count"%string := VInt 10 ]})
        "C1" (Box 0 0 5 10) 10;
    Row 2 2022 "livestock" (Some {[ "animal_type"%string := VStr "sheep" ]})
        "C2" (Box 5 0 10 10) 10 ].

(** * Properties *)

(** ** The aggregation rule engine *)

Lemma clean_values_without_none (values : list value) :
  clean_values values = without_none values.
Proof.
  unfold clean_values. induction values as [|v vs IH]; [reflexivity|].
  rewrite filter_cons.
  destruct (decide (is_not_none v = true)) as [Hv|Hv];
    destruct v; simpl in Hv |- *; try congruence; by rewrite IH.
Qed.

Lemma without_none_some_value (values : list value) :
  some_value values ↔ without_none values ≠ [].
Proof.
  unfold some_value. induction values as [|v vs IH].
  - split; [intros (x & []%elem_of_nil & _)|done].
  - destruct v; simpl; try (split; [done|]; intros _; eexists; split; [left|done]).
    rewrite <- IH. split.
    + intros (x & [->|Hx]%elem_of_cons & Hn); [done|]. by exists x.
    + intros (x & Hx & Hn). exists x. split; [by right|done].
Qed.

Lemma without_none_split (values : list value) v rest :
  without_none values = v :: rest →
  ∃ l1 l2, values = l1 ++ v :: l2 ∧ Forall (fun x => x = VNone) l1
           ∧ v ≠ VNone ∧ rest = without_none l2.
Proof.
  induction values as [|x xs IH]; [done|].
  destruct x; simpl;
    try (intros [= <- <-]; exists [], xs; repeat split; done).
  intros (l1 & l2 & -> & Hl1 & Hv & Hr)%IH.
  exists (VNone :: l1), l2. split; [done|]. split; [|done].
  by constructor.
Qed.

Lemma omap_cons_eq {A B} (f : A → option B) (x : A) (l : list A) :
  omap f (x :: l) = match f x with Some y => y :: omap f l | None => omap f l end.
Proof. reflexivity. Qed.

Lemma clean_values_doubles (values : list value) :
  omap as_double (clean_values values) = omap as_double values.
Proof.
  rewrite clean_values_without_none.
  induction values as [|v vs IH]; [reflexivity|].
  destruct v; cbn [without_none]; rewrite !omap_cons_eq; cbn [as_double];
    by rewrite ?IH.
Qed.

Lemma clean_values_range (values : list value) :
  Forall in_float_range values → Forall in_float_range (clean_values values).
Proof.
  rewrite !Forall_forall. intros H v Hv. apply H.
  unfold clean_values in Hv. apply list_elem_of_filter in Hv. tauto.
Qed.

(** When every int is in range, the generator of the numeric rules
    yields the numeric entries, as doubles, without raising. *)
Lemma numeric_floats_ok (clean : list value) :
  Forall in_float_range clean →
  numeric_floats clean = Ok (omap as_double clean).
Proof.
  unfold numeric_floats.
  induction 1 as [|v vs Hv _ IH]; [reflexivity|].
  rewrite filter_cons.
  destruct (decide (is_numeric v = true)) as [Hn|Hn];
    destruct v; simpl in Hn, Hv |- *; try congruence; try exact IH.
  - rewrite IH. reflexivity.
  - unfold float_of_int. apply Z.ltb_lt in Hv. rewrite Hv. simpl.
    rewrite IH. reflexivity.
  - rewrite IH. reflexivity.
Qed.

Lemma apply_nonempty {py : CPython} (values : list value) (rule : string) (n : Z) :
  clean_values values ≠ [] →
  _apply_aggregation_rule values rule n =
  try_except (rule_body (clean_values values) rule n)
             (Ok (List.hd VNone (clean_values values))).
Proof.
  intros Hne. unfold _apply_aggregation_rule.
  destruct (clean_values values) as [|v vs]; [congruence|reflexivity].
Qed.

Lemma some_value_clean (values : list value) :
  some_value values → clean_values values ≠ [].
Proof. rewrite clean_values_without_none. apply without_none_some_value. Qed.

(** The numeric rules up to the total, when nothing raises. *)
Lemma numeric_total (values : list value) :
  Forall in_float_range values →
  numeric_floats (clean_values values) = Ok (numeric_doubles values).
Proof.
  intros Hr. rewrite numeric_floats_ok by (by apply clean_values_range).
  by rewrite clean_values_doubles.
Qed.

Lemma neumaier_fold (l : list spec_float) (f c : spec_float) :
  fold_left neumaier_step l (f, c) = compensated_loop f c l.
Proof.
  revert f c. induction l as [|x l IH]; intros f c; [reflexivity|].
  cbn [fold_left compensated_loop]. unfold neumaier_step at 2.
  destruct (SFleb (SFabs x) (SFabs f)); apply IH.
Qed.

(** The total of the numeric rules is the sum of the interpreter. *)
Lemma py_sum_double_sum {py : CPython} (fs : list spec_float) :
  py_sum fs = match fs with [] => VInt 0 | _ => VFloat (double_sum fs) end.
Proof.
  destruct fs as [|x rest]; [reflexivity|].
  unfold py_sum, double_sum, compensated_sum, ieee_sum.
  destruct neumaier_sum; [|reflexivity].
  rewrite neumaier_fold.
  destruct (compensated_loop _ _ rest) as [f c]. by destruct c.
Qed.

(** C7, as stated, fails: the entries are converted with [float()] and
    added in double precision.  The int [2^53 + 1] alone is already
    rounded to [2^53]. *)
Lemma C7_sum_is_rounded :
  ¬ sum_rule_spec (py:=cpython_3_11) [VInt (2 ^ 53 + 1)] 1
  ∧ ¬ sum_rule_spec (py:=cpython_3_12) [VInt (2 ^ 53 + 1)] 1.
Proof.
  split; intros (v & q & Hv & Hq & He); vm_compute in Hv;
    injection Hv as <-; vm_compute in Hq; injection Hq as <-;
    vm_compute in He; discriminate He.
Qed.

(** C7, amended: when some entry is not null and every int entry is
    within the range of a double, rule "sum" ignores the entries that are
    not int, float or bool, converts the others with [float()], which
    rounds, and returns their sum in double precision as the interpreter
    computes it: from left to right, from CPython 3.12 on with a
    compensation term (the int 0 when no entry is numeric). *)
Theorem C7_sum_rule {py : CPython} (values : list value) (n : Z) :
  some_value values → Forall in_float_range values →
  _apply_aggregation_rule values "sum" n
  = Ok (match numeric_doubles values with
        | [] => VInt 0
        | fs => VFloat (double_sum fs)
        end).
Proof.
  intros Hne%some_value_clean Hr. rewrite apply_nonempty by done.
  unfold rule_body. cbn [String.eqb Ascii.eqb Bool.eqb].
  rewrite numeric_total by done.
  unfold mbind, exn_bind, try_except. rewrite py_sum_double_sum.
  by destruct (numeric_doubles values).
Qed.

Lemma C7_sum_rule_witness :
  _apply_aggregation_rule (py:=cpython_3_12)
    [VInt 10; VNone; VStr "n/a"; VFloat (S754_finite false 5 (-1)); VBool true] "sum" 2
  = Ok (match numeric_doubles
                [VInt 10; VNone; VStr "n/a"; VFloat (S754_finite false 5 (-1)); VBool true]
        with
        | [] => VInt 0
        | fs => VFloat (double_sum (py:=cpython_3_12) fs)
        end).
Proof.
  apply C7_sum_rule.
  - exists (VInt 10). split; [left|discriminate].
  - repeat constructor; vm_compute; reflexivity.
Defined.

(** C3, as stated, fails: the engine knows no rule of the name
    "divide_by_unit_count", takes the branch of unknown rules and returns
    the first surviving value. *)
Lemma C3_unit_count_is_unknown_rule :
  ¬ divide_rule_spec (py:=cpython_3_11) "divide_by_unit_count" [VInt 1; VInt 2] 2
  ∧ ¬ divide_rule_spec (py:=cpython_3_12) "divide_by_unit_count" [VInt 1; VInt 2] 2.
Proof.
  split; intros (v & q & Hv & Hq & He); vm_compute in Hv;
    injection Hv as <-; vm_compute in Hq; injection Hq as <-;
    vm_compute in He; discriminate He.
Qed.

(** C3, amended: under the name "divide_by_paddock_count", when some
    entry is not null and the ints involved are within the range of a
    double, the engine adds the numeric entries in double precision as
    rule "sum" does; when [n > 0] it returns that sum divided by
    [float(n)], rounded to a double ([0.0] when no entry is numeric), and
    otherwise the sum itself. *)
Theorem C3_divide_rule {py : CPython} (values : list value) (n : Z) :
  some_value values → Forall in_float_range values →
  n < float_overflow_bound →
  _apply_aggregation_rule values "divide_by_paddock_count" n
  = Ok (match numeric_doubles values with
        | [] => if 0 <? n then VFloat (S754_zero false) else VInt 0
        | fs => if 0 <? n
                then VFloat (SFdiv 53 1024 (double_sum fs)
                                   (binary_normalize 53 1024 n 0 false))
                else VFloat (double_sum fs)
        end).
Proof.
  intros Hne%some_value_clean Hr Hn. rewrite apply_nonempty by done.
  unfold rule_body. cbn [String.eqb Ascii.eqb Bool.eqb].
  rewrite numeric_total by done.
  unfold mbind, exn_bind. rewrite py_sum_double_sum.
  destruct (0 <? n) eqn:Hpos.
  - apply Z.ltb_lt in Hpos. unfold py_truediv.
    destruct (n =? 0) eqn:Hz; [apply Z.eqb_eq in Hz; lia|].
    destruct (numeric_doubles values) as [|f fs].
    + destruct n as [|p|p]; try lia. reflexivity.
    + unfold float_of_int.
      assert (Hin : (Z.abs n <? float_overflow_bound) = true)
        by (apply Z.ltb_lt; lia).
      by rewrite Hin.
  - by destruct (numeric_doubles values).
Qed.

Lemma C3_divide_rule_witness :
  _apply_aggregation_rule (py:=cpython_3_12) [VInt 10; VNone; VInt 15] "divide_by_paddock_count" 2
  = Ok (match numeric_doubles [VInt 10; VNone; VInt 15] with
        | [] => if 0 <? 2 then VFloat (S754_zero false) else VInt 0
        | fs => if 0 <? 2
                then VFloat (SFdiv 53 1024 (double_sum (py:=cpython_3_12) fs)
                                   (binary_normalize 53 1024 2 0 false))
                else VFloat (double_sum (py:=cpython_3_12) fs)
        end).
Proof.
  apply C3_divide_rule.
  - exists (VInt 10). split; [left|discriminate].
  - repeat constructor; vm_compute; reflexivity.
  - vm_compute. reflexivity.
Defined.

(** The double-precision results on small inputs: 10 and 15 add up to
    25.0, and 61 over 3 is the double next to 20.33..., not the fraction. *)
Example sum_and_quotient_in_doubles :
  _apply_aggregation_rule (py:=cpython_3_12) [VInt 10; VInt 15] "sum" 1
  = Ok (VFloat (binary_normalize 53 1024 25 0 false))
  ∧ _apply_aggregation_rule (py:=cpython_3_12) [VInt 61] "divide_by_paddock_count" 3
    = Ok (VFloat (S754_finite false 5723324526450005 (-48))).
Proof. split; vm_compute; reflexivity. Qed.

(** The sum of 0.1, 0.2 and 0.3: 0.6000000000000001 from left to right,
    0.6 with the compensation term. *)
Example sum_of_tenths :
  _apply_aggregation_rule (py:=cpython_3_11)
    [VFloat (S754_finite false 7205759403792794 (-56));
     VFloat (S754_finite false 7205759403792794 (-55));
     VFloat (S754_finite false 5404319552844595 (-54))] "sum" 1
  = Ok (VFloat (S754_finite false 5404319552844596 (-53)))
  ∧ _apply_aggregation_rule (py:=cpython_3_12)
      [VFloat (S754_finite false 7205759403792794 (-56));
       VFloat (S754_finite false 7205759403792794 (-55));
       VFloat (S754_finite false 5404319552844595 (-54))] "sum" 1
    = Ok (VFloat (S754_finite false 5404319552844595 (-53))).
Proof. split; vm_compute; reflexivity. Qed.

(** A rule can fail inside the [try] block: an int beyond the range of a
    double makes [float()] raise. *)
Lemma rule_body_can_raise :
  rule_body (py:=cpython_3_12) [VInt (2 ^ 1024); VInt 1] "sum" 1 = Raised "OverflowError".
Proof. vm_compute. reflexivity. Qed.

Lemma unknown_rule_body {py : CPython} (clean : list value) (rule : string) (n : Z) :
  ¬ known_rule rule →
  rule_body clean rule n
  = match clean with v :: _ => Ok v | [] => Raised "IndexError" end.
Proof.
  intros Hk. unfold rule_body.
  destruct (String.eqb rule "sum") eqn:E1;
    [apply String.eqb_eq in E1; subst; exfalso; apply Hk; set_solver|].
  destruct (String.eqb rule "mean") eqn:E2;
    [apply String.eqb_eq in E2; subst; exfalso; apply Hk; set_solver|].
  destruct (String.eqb rule "divide_by_paddock_count") eqn:E3;
    [apply String.eqb_eq in E3; subst; exfalso; apply Hk; set_solver|].
  destruct (String.eqb rule "first") eqn:E4;
    [apply String.eqb_eq in E4; subst; exfalso; apply Hk; set_solver|].
  destruct (String.eqb rule "majority") eqn:E5;
    [apply String.eqb_eq in E5; subst; exfalso; apply Hk; set_solver|].
  done.
Qed.

Lemma without_none_idem (values : list value) :
  without_none (without_none values) = without_none values.
Proof.
  induction values as [|v vs IH]; [done|]. destruct v; simpl; by rewrite ?IH.
Qed.

(** C8: the engine never raises.  It discards the null entries first:
    its answer on a list is its answer on the list without its nulls.
    When every entry is null (the empty list included) the answer is
    null, whatever the rule.  On a rule name it does not know, and
    whenever the rule fails inside the [try] block, the answer is the
    first entry of the list that is not null. *)
Theorem C8_apply_rule_total {py : CPython} (values : list value) (rule : string) (n : Z) :
  ∃ v, _apply_aggregation_rule values rule n = Ok v
       ∧ _apply_aggregation_rule (without_none values) rule n = Ok v
       ∧ (Forall (fun x => x = VNone) values → v = VNone)
       ∧ (∀ l1 x l2,
            values = l1 ++ x :: l2 → Forall (fun y => y = VNone) l1 → x ≠ VNone →
            ¬ known_rule rule
            ∨ (∃ e, rule_body (x :: without_none l2) rule n = Raised e) →
            v = x).
Proof.
  unfold _apply_aggregation_rule.
  rewrite !clean_values_without_none, without_none_idem.
  destruct (without_none values) as [|c cs] eqn:Hc.
  - exists VNone. do 3 (split; [done|]).
    intros l1 x l2 -> Hl1 Hx _. exfalso.
    assert (Hs : some_value (l1 ++ x :: l2)).
    { exists x. split; [|done]. apply elem_of_app. right. left. }
    by apply without_none_some_value in Hs.
  - assert (Hfirst : ∀ l1 x l2, values = l1 ++ x :: l2 →
              Forall (fun y => y = VNone) l1 → x ≠ VNone →
              c = x ∧ cs = without_none l2).
    { intros l1 x l2 -> Hl1 Hx. revert Hc. clear -Hl1 Hx.
      induction Hl1 as [|y l1 -> _ IH]; simpl.
      - destruct x; try done; by intros [= <- <-].
      - exact IH. }
    destruct (rule_body (c :: cs) rule n) as [v|e] eqn:Hb; simpl.
    + exists v. do 2 (split; [done|]). split.
      * intros Hall. exfalso.
        assert (Hs : ¬ some_value values).
        { intros (x & Hx & Hn). rewrite Forall_forall in Hall. by apply Hn, Hall. }
        apply Hs, without_none_some_value. by rewrite Hc.
      * intros l1 x l2 Hv Hl1 Hx Hcase.
        destruct (Hfirst _ _ _ Hv Hl1 Hx) as [-> ->].
        destruct Hcase as [Hk|[e He]]; [|congruence].
        rewrite unknown_rule_body in Hb by done. by injection Hb as <-.
    + exists c. do 2 (split; [done|]). split.
      * intros Hall. exfalso.
        assert (Hs : ¬ some_value values).
        { intros (x & Hx & Hn). rewrite Forall_forall in Hall. by apply Hn, Hall. }
        apply Hs, without_none_some_value. by rewrite Hc.
      * intros l1 x l2 Hv Hl1 Hx _. by destruct (Hfirst _ _ _ Hv Hl1 Hx) as [-> _].
Qed.
(** ** Rule "majority" *)

Lemma xnum_eqb_refl (x : xnum) : xnum_eqb x x = true.
Proof. destruct x as [q|[]]; simpl; [apply Qeq_bool_refl|done..]. Qed.

Lemma xnum_eqb_sym (x y : xnum) : xnum_eqb x y = true → xnum_eqb y x = true.
Proof.
  destruct x as [p|s], y as [q|t]; simpl; try done.
  - apply Qeq_bool_sym.
  - by destruct s, t.
Qed.

Lemma xnum_eqb_trans (x y z : xnum) :
  xnum_eqb x y = true → xnum_eqb y z = true → xnum_eqb x z = true.
Proof.
  destruct x as [p|s], y as [q|t], z as [r|u]; simpl; try done.
  - apply Qeq_bool_trans.
  - by destruct s, t, u.
Qed.

Lemma py_eqb_num (a b : value) :
  py_eqb a b
  = match a, b with
    | VNone, VNone => true
    | VStr s, VStr t => String.eqb s t
    | _, _ => match num_of a, num_of b with
              | Some x, Some y => xnum_eqb x y
              | _, _ => false
              end
    end.
Proof. reflexivity. Qed.

Lemma py_eqb_refl (a : value) : a ≠ VFloat S754_nan → py_eqb a a = true.
Proof.
  destruct a as [|b|z|f|s]; intros Hn.
  - done.
  - apply (xnum_eqb_refl (XFin _)).
  - apply (xnum_eqb_refl (XFin _)).
  - destruct f; [apply (xnum_eqb_refl (XFin _))|apply (xnum_eqb_refl (XInf _))|done|].
    apply (xnum_eqb_refl (XFin _)).
  - apply String.eqb_refl.
Qed.

Lemma py_eqb_sym (a b : value) : py_eqb a b = true → py_eqb b a = true.
Proof.
  rewrite !py_eqb_num.
  destruct a, b; try done; try (rewrite String.eqb_sym; done);
    destruct (num_of _) eqn:Ha; try done;
    destruct (num_of _) eqn:Hb in |- *; try done; rewrite ?Ha;
    try apply xnum_eqb_sym; try done.
Qed.

Lemma py_eqb_trans (a b c : value) :
  py_eqb a b = true → py_eqb b c = true → py_eqb a c = true.
Proof.
  rewrite !py_eqb_num.
  destruct a, b, c; try done;
    try (intros ->%String.eqb_eq ->%String.eqb_eq; apply String.eqb_refl);
    try (destruct (num_of _); done);
    destruct (num_of _) as [?|]; try done;
    destruct (num_of _) as [?|]; try done;
    try (destruct (num_of _) as [?|]; try done);
    try apply xnum_eqb_trans; try done.
Qed.

Lemma py_eqb_false_r (a b c : value) :
  py_eqb a b = true → py_eqb a c = false → py_eqb b c = false.
Proof.
  intros Hab Hac. destruct (py_eqb b c) eqn:E; [|done].
  rewrite (py_eqb_trans a b c Hab E) in Hac. done.
Qed.

Lemma freq_snoc (k v : value) (l : list value) :
  freq k (l ++ [v]) = (freq k l + (if py_eqb k v then 1 else 0))%nat.
Proof.
  unfold freq. rewrite List.filter_app, length_app. simpl.
  by destruct (py_eqb k v).
Qed.

Lemma freq_equiv (a b : value) (l : list value) :
  py_eqb a b = true → freq a l = freq b l.
Proof.
  intros Hab. unfold freq. f_equal. apply List.filter_ext. intros x.
  destruct (py_eqb a x) eqn:E.
  - symmetry. eapply py_eqb_trans; [by apply py_eqb_sym|done].
  - symmetry. eapply py_eqb_false_r; done.
Qed.

Lemma freq_zero (k : value) (l : list value) :
  (∀ x, x ∈ l → py_eqb k x = false) → freq k l = 0%nat.
Proof.
  unfold freq. induction l as [|x l IH]; intros H; [done|].
  simpl. rewrite H by left. apply IH. intros y Hy. apply H. by right.
Qed.

(** What [counter_add] does to the list of items. *)
Lemma counter_add_spec (c : list (value * nat)) (v : value) :
  (∃ i k n, c !! i = Some (k, n) ∧ py_eqb k v = true
            ∧ counter_add c v = <[i := (k, S n)]> c)
  ∨ ((∀ i k n, c !! i = Some (k, n) → py_eqb k v = false)
     ∧ counter_add c v = c ++ [(v, 1%nat)]).
Proof.
  induction c as [|[k n] c IH]; simpl.
  - right. split; [|done]. intros i k n. by rewrite lookup_nil.
  - destruct (py_eqb k v) eqn:E.
    + left. by exists 0%nat, k, n.
    + destruct IH as [(i & k' & n' & Hi & Hk & ->)|[Hnone ->]].
      * left. by exists (S i), k', n'.
      * right. split; [|done]. intros [|i] k' n'; simpl.
        -- by intros [= -> ->].
        -- apply Hnone.
Qed.

Lemma counter_inv_nil : counter_inv [] [].
Proof.
  split.
  - intros i k n. by rewrite lookup_nil.
  - intros i j k n k' n' _. by rewrite lookup_nil.
  - intros i k n. by rewrite lookup_nil.
  - intros x Hx. by apply elem_of_nil in Hx.
Qed.

Lemma counter_inv_step (l : list value) (c : list (value * nat)) (v : value) :
  v ≠ VFloat S754_nan →
  counter_inv l c → counter_inv (l ++ [v]) (counter_add c v).
Proof.
  intros Hnan [I1 I2 I3 I4].
  destruct (counter_add_spec c v) as [(i & k & n & Hi & Hk & ->)|[Hnone ->]].
  - assert (Hlt : (i < length c)%nat) by (by eapply lookup_lt_Some).
    split.
    + intros j k' n'. rewrite list_lookup_insert_Some.
      intros [(-> & [= <- <-] & _)|[Hne Hj]]; rewrite freq_snoc.
      * rewrite Hk. rewrite (I1 _ _ _ Hi). lia.
      * assert (py_eqb k' v = false) as ->.
        { destruct (py_eqb k' v) eqn:E; [|done].
          rewrite <- (I2 j i k' n' k n); [|done..].
          symmetry. eapply py_eqb_trans; [done|by apply py_eqb_sym]. }
        rewrite (I1 _ _ _ Hj). lia.
    + intros a b ka na kb nb Hab. rewrite !list_lookup_insert_Some.
      intros [(-> & [= <- <-] & _)|[Hna Ha]] [(-> & [= <- <-] & _)|[Hnb Hb]];
        try done; eauto.
    + intros j k' n'. rewrite list_lookup_insert_Some.
      intros Hj.
      assert (∃ m, c !! j = Some (k', m)) as [m Hm].
      { destruct Hj as [(-> & [= <- <-] & _)|[_ Hj]]; eauto. }
      destruct (I3 _ _ _ Hm) as (l1 & l2 & -> & Hl1).
      exists l1, (l2 ++ [v]). split; [by rewrite <- app_assoc|].
      intros x Hx. destruct (Hl1 x Hx) as (a & ka & na & Ha & Hca & Hka).
      destruct (decide (i = a)) as [->|Hia].
      * exists a, k, (S n). rewrite list_lookup_insert_eq by done.
        rewrite Hi in Hca. injection Hca as <- <-. done.
      * exists a, ka, na. by rewrite list_lookup_insert_ne.
    + intros x [Hx | ->%list_elem_of_singleton]%elem_of_app.
      * destruct (I4 x Hx) as (a & ka & na & Hca & Hka).
        destruct (decide (i = a)) as [->|Hia].
        -- exists a, k, (S n). rewrite list_lookup_insert_eq by done.
           rewrite Hi in Hca. injection Hca as <- <-. done.
        -- exists a, ka, na. by rewrite list_lookup_insert_ne.
      * exists i, k, (S n). by rewrite list_lookup_insert_eq.
  - split.
    + intros j k' n'. rewrite lookup_snoc_Some, freq_snoc.
      intros [[_ Hj]|[_ [= <- <-]]].
      * rewrite (Hnone _ _ _ Hj). rewrite (I1 _ _ _ Hj). lia.
      * rewrite py_eqb_refl by done. rewrite freq_zero; [done|].
        intros x Hx. destruct (I4 x Hx) as (a & ka & na & Hca & Hka).
        destruct (py_eqb v x) eqn:E; [|done].
        rewrite <- (Hnone _ _ _ Hca). symmetry.
        eapply py_eqb_trans; [done|by apply py_eqb_sym].
    + intros a b ka na kb nb Hab. rewrite !lookup_snoc_Some.
      intros [[_ Ha]|[Hla [= <- <-]]] [[_ Hb]|[Hlb [= <- <-]]].
      * eauto.
      * eauto.
      * destruct (py_eqb v kb) eqn:E; [|done].
        apply py_eqb_sym in E. by rewrite (Hnone _ _ _ Hb) in E.
      * lia.
    + intros j k' n'. rewrite lookup_snoc_Some.
      intros [[Hjl Hj]|[Hjl [= <- <-]]].
      * destruct (I3 _ _ _ Hj) as (l1 & l2 & -> & Hl1).
        exists l1, (l2 ++ [v]). split; [by rewrite <- app_assoc|].
        intros x Hx. destruct (Hl1 x Hx) as (a & ka & na & Ha & Hca & Hka).
        exists a, ka, na. split; [done|]. split; [|done].
        apply lookup_app_l_Some. done.
      * exists l, []. split; [done|]. intros x Hx.
        destruct (I4 x Hx) as (a & ka & na & Hca & Hka).
        exists a, ka, na. split; [|split; [|done]].
        -- subst j. by eapply lookup_lt_Some.
        -- by apply lookup_app_l_Some.
    + intros x [Hx | ->%list_elem_of_singleton]%elem_of_app.
      * destruct (I4 x Hx) as (a & ka & na & Hca & Hka).
        exists a, ka, na. split; [|done]. by apply lookup_app_l_Some.
      * exists (length c), v, 1%nat. split; [|by apply py_eqb_refl].
        rewrite lookup_snoc_Some. right. done.
Qed.

Lemma counter_inv_fold (l0 l : list value) (c : list (value * nat)) :
  no_nan l →
  counter_inv l0 c → counter_inv (l0 ++ l) (fold_left counter_add l c).
Proof.
  intros Hnan. revert l0 c.
  induction Hnan as [|v l Hv _ IH]; intros l0 c Hinv; simpl.
  - by rewrite app_nil_r.
  - replace (l0 ++ v :: l) with ((l0 ++ [v]) ++ l) by (by rewrite <- app_assoc).
    apply IH. by apply counter_inv_step.
Qed.

Lemma Counter_inv (l : list value) : no_nan l → counter_inv l (Counter l).
Proof. intros Hnan. by apply (counter_inv_fold [] l []), counter_inv_nil. Qed.

(** [max_item] returns the first item with the greatest count. *)
Lemma max_item_spec (items : list (value * nat)) (pre : list (value * nat))
    (best : value * nat) (i : nat) :
  pre !! i = Some best →
  (∀ j x, pre !! j = Some x →
          (snd x ≤ snd best)%nat ∧ ((j < i)%nat → (snd x < snd best)%nat)) →
  ∃ i' m, max_item best items = m ∧ (pre ++ items) !! i' = Some m
    ∧ ∀ j x, (pre ++ items) !! j = Some x →
             (snd x ≤ snd m)%nat ∧ ((j < i')%nat → (snd x < snd m)%nat).
Proof.
  revert pre best i. induction items as [|it items IH]; intros pre best i Hi Hmax.
  - simpl. exists i, best. rewrite app_nil_r. done.
  - simpl. replace (pre ++ it :: items) with ((pre ++ [it]) ++ items)
      by (by rewrite <- app_assoc).
    destruct (snd best <? snd it)%nat eqn:E.
    + apply Nat.ltb_lt in E. apply (IH _ _ (length pre)).
      * rewrite lookup_snoc_Some. by right.
      * intros j x. rewrite lookup_snoc_Some.
        intros [[Hj Hx]|[-> <-]].
        -- destruct (Hmax j x Hx). split; lia.
        -- split; lia.
    + apply Nat.ltb_ge in E. apply (IH _ _ i).
      * by apply lookup_app_l_Some.
      * intros j x. rewrite lookup_snoc_Some.
        intros [[Hj Hx]|[-> <-]].
        -- by apply Hmax.
        -- split; [done|]. intros Hlt.
           apply lookup_lt_Some in Hi. lia.
Qed.

Lemma most_common_1_spec (c : list (value * nat)) :
  c ≠ [] →
  ∃ i m, most_common_1 c = [m] ∧ c !! i = Some m
    ∧ ∀ j x, c !! j = Some x →
             (snd x ≤ snd m)%nat ∧ ((j < i)%nat → (snd x < snd m)%nat).
Proof.
  destruct c as [|it r]; [done|]. intros _. simpl.
  destruct (max_item_spec r [it] it 0%nat) as (i & m & Hm & Hi & Hall).
  - done.
  - intros [|j] x; simpl; [|by rewrite lookup_nil].
    intros [= <-]. split; lia.
  - exists i, m. rewrite Hm. done.
Qed.

Lemma py_eqb_none_r (x : value) : x ≠ VNone → py_eqb x VNone = false.
Proof.
  destruct x; simpl; try done. by destruct (float_value f).
Qed.

Lemma freq_without_none (x : value) (l : list value) :
  x ≠ VNone → freq x (without_none l) = freq x l.
Proof.
  intros Hx. unfold freq. induction l as [|y l IH]; [done|].
  destruct y; simpl; rewrite ?(py_eqb_none_r x Hx); try done;
    match goal with |- context [if ?b then _ else _] => destruct b end;
    simpl; by rewrite IH.
Qed.

Lemma without_none_elem (l : list value) x :
  x ∈ without_none l ↔ x ∈ l ∧ x ≠ VNone.
Proof.
  rewrite <- clean_values_without_none. unfold clean_values.
  rewrite list_elem_of_filter. split.
  - intros [Hx ?]. split; [done|]. by intros ->.
  - intros [? Hx]. split; [|done]. by destruct x.
Qed.

Lemma without_none_app_split (values c1 c2 : list value) r :
  without_none values = c1 ++ r :: c2 →
  ∃ l1 l2, values = l1 ++ r :: l2 ∧ without_none l1 = c1.
Proof.
  revert c1. induction values as [|x xs IH]; intros c1; simpl.
  - by destruct c1.
  - assert (Hcons : ∀ y, y ≠ VNone → y :: without_none xs = c1 ++ r :: c2 →
              without_none (y :: xs) = y :: without_none xs →
              ∃ l1 l2, y :: xs = l1 ++ r :: l2 ∧ without_none l1 = c1).
    { intros y Hy Heq Hy'. destruct c1 as [|c c1]; simpl in Heq.
      - injection Heq as -> _. by exists [], xs.
      - injection Heq as -> Heq. destruct (IH _ Heq) as (l1 & l2 & -> & Hl1).
        exists (c :: l1), l2. split; [done|].
        destruct c; simpl; try done; by rewrite Hl1. }
    destruct x; try (intros Heq; by apply Hcons).
    intros (l1 & l2 & -> & Hl1)%IH. by exists (VNone :: l1), l2.
Qed.

Lemma no_nan_without_none (values : list value) :
  no_nan values → no_nan (without_none values).
Proof.
  unfold no_nan. rewrite !Forall_forall.
  intros Hn x [Hx _]%without_none_elem. by apply Hn.
Qed.

(** C6: when some entry is not null (and no entry is NaN), rule
    "majority" returns an entry of the list that is not null and of
    greatest frequency among the entries that are not null, and of those
    the one that comes first in the input: every entry before it is null
    or strictly less frequent.  Frequency counts the entries equal for
    Python's [==], which is how [Counter] tells keys apart. *)
Theorem C6_majority_rule {py : CPython} (values : list value) (n : Z) :
  some_value values → no_nan values → majority_rule_spec values n.
Proof.
  intros Hne%some_value_clean Hnan. unfold majority_rule_spec.
  rewrite apply_nonempty by done.
  rewrite clean_values_without_none in *.
  set (clean := without_none values) in *.
  pose proof (Counter_inv clean (no_nan_without_none _ Hnan)) as [I1 I2 I3 I4].
  assert (Hc : Counter clean ≠ []).
  { destruct clean as [|x xs] eqn:Hcl; [done|].
    destruct (I4 x) as (i & k & m & Hi & _); [by left|].
    intros Hnil. rewrite Hnil in Hi. by rewrite lookup_nil in Hi. }
  destruct (most_common_1_spec _ Hc) as (i & [r cnt] & Hmc & Hi & Hmax).
  destruct (I3 _ _ _ Hi) as (c1 & c2 & Hsplit & Hc1).
  assert (Hr : r ∈ values ∧ r ≠ VNone).
  { apply without_none_elem. fold clean. rewrite Hsplit.
    apply elem_of_app. right. left. }
  destruct Hr as [_ Hr].
  destruct (without_none_app_split _ _ _ _ Hsplit) as (l1 & l2 & Hv & Hl1).
  exists r, l1, l2. split; [|split; [done|split; [done|split]]].
  - unfold rule_body. simpl. rewrite Hmc. done.
  - intros x Hx Hxn.
    assert (Hxc : x ∈ clean) by (by apply without_none_elem).
    destruct (I4 x Hxc) as (j & k & m & Hj & Hk).
    rewrite <- (freq_without_none x values), <- (freq_without_none r values) by done.
    fold clean. rewrite <- (freq_equiv k x) by done.
    rewrite <- (I1 _ _ _ Hj), <- (I1 _ _ _ Hi).
    by destruct (Hmax _ _ Hj).
  - intros x Hx.
    assert (x = VNone ∨ x ≠ VNone) as [|Hxn]
      by (destruct x; [by left|by right..]); [by left|]. right.
    assert (Hxc : x ∈ c1) by (rewrite <- Hl1; by apply without_none_elem).
    destruct (Hc1 x Hxc) as (j & k & m & Hji & Hj & Hk).
    rewrite <- (freq_without_none x values), <- (freq_without_none r values) by done.
    fold clean. rewrite <- (freq_equiv k x) by done.
    rewrite <- (I1 _ _ _ Hj), <- (I1 _ _ _ Hi).
    destruct (Hmax _ _ Hj) as [_ Hlt]. by apply Hlt.
Qed.

Lemma C6_majority_rule_witness :
  majority_rule_spec (py:=cpython_3_12) [VStr "oats"; VNone; VStr "rye"; VInt 1; VStr "rye"; VBool true] 3.
Proof.
  apply C6_majority_rule.
  - exists (VStr "oats"). split; [left|discriminate].
  - repeat constructor; discriminate.
Defined.
(** ** [find_best_spatial_match] *)

(** The order of doubles: [<] followed by [<=] is [<], and nothing is
    below itself. *)
Ltac sf_order :=
  unfold SFltb, SFleb, SFcompare;
  repeat match goal with
         | |- context [Z.compare ?a ?b] => destruct (Z.compare_spec a b); subst
         | |- context [Pos.compare_cont Eq ?a ?b] =>
           change (Pos.compare_cont Eq a b) with (Pos.compare a b);
           destruct (Pos.compare_spec a b); subst
         end;
  simpl; intros; try done; exfalso; lia.

Lemma SFltb_leb_trans (a b c : spec_float) :
  SFltb a b = true → SFleb b c = true → SFltb a c = true.
Proof.
  destruct a as [[]|[]| |[] m1 e1], b as [[]|[]| |[] m2 e2],
    c as [[]|[]| |[] m3 e3]; try done; sf_order.
Qed.

Lemma SFltb_irrefl (a : spec_float) : SFltb a a = false.
Proof. destruct a as [[]|[]| |[] m1 e1]; try done; sf_order. Qed.

Lemma SFltb_leb (a b : spec_float) : SFltb a b = true → SFleb a b = true.
Proof.
  unfold SFltb, SFleb. by destruct (SFcompare a b) as [[]|].
Qed.

Lemma SFltb_trans (a b c : spec_float) :
  SFltb a b = true → SFltb b c = true → SFltb a c = true.
Proof. intros Hab Hbc. eapply SFltb_leb_trans; [done|by apply SFltb_leb]. Qed.

Lemma SFleb_above (a b x : spec_float) :
  SFltb a b = true → SFltb a x = false → SFleb b x = false.
Proof.
  intros Hab Hax. destruct (SFleb b x) eqn:Hbx; [|done].
  by rewrite (SFltb_leb_trans a b x) in Hax.
Qed.

Section Matching.
Context {geom : Type} `{Shapely geom}.

Lemma match_step_score (h : geom) (acc : option string * spec_float)
    (rp : string * geom) :
  match_step h acc rp =
  match score h (snd rp) with
  | Some r => if SFltb (snd acc) r then (Some (fst rp), r) else acc
  | None => acc
  end.
Proof.
  unfold match_step, score. destruct acc as [b m]. simpl.
  destruct (intersection h (snd rp)) as [i|]; [|done].
  destruct (is_empty i); [done|].
  by destruct (SFeqb (area h) (S754_zero false)).
Qed.

Lemma match_step_skip_empty (h : geom) acc rp i :
  intersection h (snd rp) = Some i → is_empty i = true →
  match_step h acc rp = acc.
Proof.
  intros Hi He. rewrite match_step_score. unfold score. by rewrite Hi, He.
Qed.

Lemma match_step_skip_zero_area (h : geom) acc rp :
  SFeqb (area h) (S754_zero false) = true → match_step h acc rp = acc.
Proof.
  intros Hz. rewrite match_step_score. unfold score.
  destruct (intersection h (snd rp)) as [i|]; [|done].
  destruct (is_empty i); [done|]. by rewrite Hz.
Qed.

Lemma match_step_skip_raise (h : geom) acc rp :
  intersection h (snd rp) = None → match_step h acc rp = acc.
Proof. intros Hi. rewrite match_step_score. unfold score. by rewrite Hi. Qed.

Lemma fold_match_zero_area (h : geom) refs acc :
  SFeqb (area h) (S754_zero false) = true →
  fold_left (match_step h) refs acc = acc.
Proof.
  intros Hz. revert acc. induction refs as [|rp refs IH]; intros acc; [done|].
  simpl. by rewrite match_step_skip_zero_area, IH.
Qed.

Lemma best_match_step (h : geom) (pre : list (string * geom)) acc rp :
  best_match_spec h pre acc →
  best_match_spec h (pre ++ [rp]) (match_step h acc rp).
Proof.
  intros Hinv. rewrite match_step_score.
  destruct (score h (snd rp)) as [r|] eqn:Hs.
  - destruct (SFltb (snd acc) r) eqn:Hlt.
    + right. destruct rp as [p g]. simpl in *.
      exists p, g, r, pre, []. split; [done|]. split; [done|]. split; [done|].
      destruct Hinv as [[-> Hall]|(p' & g' & m & l1 & l2 & -> & -> & Hg & Hpos & H1 & H2)];
        simpl in *.
      * split; [done|]. split; [|intros ? ? []%elem_of_nil].
        intros rp' r' Hin Hr'. eapply SFleb_above; [exact Hlt|]. eauto.
      * split; [by eapply SFltb_trans|]. split; [|intros ? ? []%elem_of_nil].
        intros rp' r' [Hin|Hin]%elem_of_app Hr'.
        -- destruct (SFleb r r') eqn:Hc; [|done].
           rewrite <- (H1 _ _ Hin Hr'). symmetry. apply SFltb_leb.
           by eapply SFltb_leb_trans.
        -- apply elem_of_cons in Hin as [->|Hin].
           ++ simpl in Hr'. rewrite Hg in Hr'. injection Hr' as <-.
              eapply SFleb_above; [exact Hlt|]. apply SFltb_irrefl.
           ++ eapply SFleb_above; [exact Hlt|]. eauto.
    + destruct Hinv as [[-> Hall]|(p & g & m & l1 & l2 & -> & -> & Hg & Hpos & H1 & H2)].
      * left. split; [done|]. intros rp' r' [Hin| ->%list_elem_of_singleton]%elem_of_app Hr'.
        -- eauto.
        -- rewrite Hs in Hr'. by injection Hr' as <-.
      * right. exists p, g, m, l1, (l2 ++ [rp]).
        split; [done|]. split; [by rewrite <- app_assoc|].
        split; [done|]. split; [done|]. split; [done|].
        intros rp' r' [Hin| ->%list_elem_of_singleton]%elem_of_app Hr'.
        -- eauto.
        -- rewrite Hs in Hr'. by injection Hr' as <-.
  - destruct Hinv as [[-> Hall]|(p & g & m & l1 & l2 & -> & -> & Hg & Hpos & H1 & H2)].
    + left. split; [done|]. intros rp' r' [Hin| ->%list_elem_of_singleton]%elem_of_app Hr'.
      * eauto.
      * congruence.
    + right. exists p, g, m, l1, (l2 ++ [rp]).
      split; [done|]. split; [by rewrite <- app_assoc|].
      split; [done|]. split; [done|]. split; [done|].
      intros rp' r' [Hin| ->%list_elem_of_singleton]%elem_of_app Hr'.
      * eauto.
      * congruence.
Qed.

Lemma best_match_fold (h : geom) (refs pre : list (string * geom)) acc :
  best_match_spec h pre acc →
  best_match_spec h (pre ++ refs) (fold_left (match_step h) refs acc).
Proof.
  revert pre acc. induction refs as [|rp refs IH]; intros pre acc Hinv; simpl.
  - by rewrite app_nil_r.
  - replace (pre ++ rp :: refs) with ((pre ++ [rp]) ++ refs)
      by (by rewrite <- app_assoc).
    apply IH. by apply best_match_step.
Qed.

Lemma find_best_spec (self : SpatialMatcher geom) (h : geom) :
  best_match_spec h (reference_paddocks self) (find_best_spatial_match self h).
Proof.
  unfold find_best_spatial_match.
  apply (best_match_fold h (reference_paddocks self) []).
  left. split; [done|]. intros ? ? []%elem_of_nil.
Qed.

(** C5: a candidate whose intersection is empty leaves the running
    answer as it is, and so does every candidate when the historical
    area is zero (the answer is then (None, 0)).  The ratio of a
    candidate is the area of its intersection divided by the historical
    area, in double precision.  The answer is a candidate of the
    reference set with its ratio, which is above 0, above the ratio of
    every candidate before it and not below the ratio of any candidate
    after it; it is (None, 0) when no candidate has a ratio above 0, and
    only then. *)
Theorem C5_find_best_spatial_match (self : SpatialMatcher geom) (h : geom) :
  (∀ acc rp i, intersection h (snd rp) = Some i → is_empty i = true →
               match_step h acc rp = acc)
  ∧ (SFeqb (area h) (S754_zero false) = true →
     find_best_spatial_match self h = (None, S754_zero false))
  ∧ best_match_spec h (reference_paddocks self) (find_best_spatial_match self h)
  ∧ (∀ rp i, rp ∈ reference_paddocks self →
       intersection h (snd rp) = Some i → is_empty i = false →
       SFeqb (area h) (S754_zero false) = false →
       SFltb (S754_zero false) (SFdiv 53 1024 (area i) (area h)) = true →
       ∃ p r, find_best_spatial_match self h = (Some p, r)).
Proof.
  split; [apply match_step_skip_empty|]. split; [|split].
  - intros Hz. unfold find_best_spatial_match. by apply fold_match_zero_area.
  - apply find_best_spec.
  - intros rp i Hin Hi He Hz Hpos.
    destruct (find_best_spec self h) as [[_ Hall]|(p & g & r & _ & _ & -> & _)];
      [|by eauto].
    specialize (Hall rp (SFdiv 53 1024 (area i) (area h)) Hin).
    unfold score in Hall. rewrite Hi, He, Hz in Hall.
    rewrite Hall in Hpos; done.
Qed.

(** The id that [find_best_spatial_match] answers is a reference id. *)
Lemma find_best_in_refs (self : SpatialMatcher geom) (h : geom) p r :
  find_best_spatial_match self h = (Some p, r) →
  p ∈ (reference_paddocks self).*1.
Proof.
  intros Hp.
  destruct (find_best_spec self h) as [[Hn _]|Hs].
  - congruence.
  - destruct Hs as (p' & g & r' & l1 & l2 & He & Hl & _).
    rewrite Hp in He. injection He as -> ->. rewrite Hl.
    rewrite fmap_app. apply elem_of_app. right. simpl. by left.
Qed.
End Matching.

(** ** Reference paddocks and the paddock mapping *)

Section Mapping.
Context {geom : Type}.

Lemma first_with_id_split (p : string) (l : list (row geom)) r :
  first_with_id p l = Some r →
  ∃ l1 l2, l = l1 ++ r :: l2 ∧ data_paddock_id r = p
           ∧ ∀ x, x ∈ l1 → data_paddock_id x ≠ p.
Proof.
  unfold first_with_id. induction l as [|x l IH]; simpl; [done|].
  destruct (String.eqb (data_paddock_id x) p) eqn:E.
  - intros [= ->]. exists [], l. apply String.eqb_eq in E.
    split; [done|]. split; [done|]. intros ? []%elem_of_nil.
  - intros Hf. destruct (IH Hf) as (l1 & l2 & -> & Hp & Hl1).
    exists (x :: l1), l2. split; [done|]. split; [done|].
    intros y [->|Hy]%elem_of_cons; [|by apply Hl1].
    by apply String.eqb_neq in E.
Qed.

Lemma first_with_id_is_Some (p : string) (l : list (row geom)) :
  p ∈ paddock_ids l → is_Some (first_with_id p l).
Proof.
  unfold paddock_ids, first_with_id.
  induction l as [|x l IH]; simpl.
  - by intros ?%elem_of_nil.
  - intros [->|Hp]%elem_of_cons.
    + by rewrite String.eqb_refl.
    + destruct (String.eqb (data_paddock_id x) p); [done|]. by apply IH.
Qed.

Lemma first_with_id_elem (p : string) (l : list (row geom)) r :
  first_with_id p l = Some r → r ∈ l ∧ data_paddock_id r = p.
Proof.
  intros (l1 & l2 & -> & Hp & _)%first_with_id_split. split; [|done].
  apply elem_of_app. right. by left.
Qed.

Lemma groupby_first_elem (l : list (row geom)) p g :
  (p, g) ∈ groupby_first l ↔ ∃ r, first_with_id p l = Some r ∧ geometry r = g.
Proof.
  unfold groupby_first. rewrite list_elem_of_omap. split.
  - intros (p' & _ & Hf).
    destruct (first_with_id p' l) as [r|] eqn:E; simpl in Hf; [|done].
    injection Hf as -> <-. by exists r.
  - intros (r & Hf & <-). exists p. split.
    + rewrite merge_sort_Permutation, elem_of_remove_dups.
      apply first_with_id_elem in Hf as [Hr <-].
      by apply list_elem_of_fmap_2.
    + by rewrite Hf.
Qed.

Lemma groupby_first_keys (l : list (row geom)) p :
  p ∈ (groupby_first l).*1 ↔ p ∈ paddock_ids l.
Proof.
  split.
  - intros ([p' g] & -> & Hin)%list_elem_of_fmap_1. simpl.
    apply groupby_first_elem in Hin as (r & Hf & _).
    apply first_with_id_elem in Hf as [Hr <-].
    by apply list_elem_of_fmap_2.
  - intros [r Hf]%first_with_id_is_Some.
    apply (list_elem_of_fmap_2' _ _ (p, geometry r)); [|done].
    apply groupby_first_elem. by exists r.
Qed.

Lemma reference_paddocks_with_reference (self : SpatialMatcher geom) gdf :
  reference_paddocks (with_reference self gdf) = groupby_first (reference_rows gdf).
Proof. reflexivity. Qed.

(** C2, as stated, fails: the function does not sort.  Of two rows of a
    paddock in the reference year it keeps the geometry of the one that
    comes first in the frame, here the older one. *)
Lemma C2_keeps_first_not_latest :
  ¬ most_recent_spec new_matcher
      [Row 1 2023 "livestock" None "P7" (Box 0 0 10 10) 100;
       Row 2 2023 "livestock" None "P7" (Box 0 0 12 10) 200].
Proof.
  intros Hs.
  destruct (Hs "P7"%string (Box 0 0 10 10)) as (r & Hr & _ & Hg & Hmax).
  - vm_compute. left.
  - specialize (Hmax (Row 2 2023 "livestock" None "P7" (Box 0 0 12 10) 200)).
    vm_compute in Hr.
    apply elem_of_cons in Hr as [->|Hr].
    + simpl in Hmax. assert (200 <= 100) by (apply Hmax; [vm_compute; right; left|done]).
      lia.
    + apply list_elem_of_singleton in Hr as ->. discriminate Hg.
Qed.

(** C2, amended: for each paddock id of the reference year the function
    keeps exactly one geometry, that of the first row with this id in
    the order of the frame; when the frame comes ordered by descending
    [updated_at], as the query of [get_farm_data_with_geometries]
    delivers it, that row is a most recently updated one. *)
Theorem C2_keeps_first_in_frame_order (self : SpatialMatcher geom)
    (gdf : list (row geom)) (p : string) :
  p ∈ paddock_ids (reference_rows gdf) →
  ∃ l1 r l2,
    reference_rows gdf = l1 ++ r :: l2
    ∧ data_paddock_id r = p
    ∧ (∀ x, x ∈ l1 → data_paddock_id x ≠ p)
    ∧ (p, geometry r) ∈ reference_paddocks (with_reference self gdf)
    ∧ (∀ g, (p, g) ∈ reference_paddocks (with_reference self gdf) →
            g = geometry r)
    ∧ (by_recency (reference_rows gdf) →
       ∀ r', r' ∈ reference_rows gdf → data_paddock_id r' = p →
             updated_at r' <= updated_at r).
Proof.
  rewrite reference_paddocks_with_reference.
  intros [r Hf]%first_with_id_is_Some.
  destruct (first_with_id_split _ _ _ Hf) as (l1 & l2 & Hl & Hp & Hl1).
  exists l1, r, l2. do 3 (split; [done|]). split; [|split].
  - apply groupby_first_elem. by exists r.
  - intros g (r' & Hf' & <-)%groupby_first_elem. congruence.
  - rewrite Hl. intros Hsorted r' Hr' Hp'.
    apply elem_of_app in Hr' as [Hr'|Hr'].
    + by destruct (Hl1 r' Hr').
    + apply StronglySorted_app_1_r in Hsorted.
      apply elem_of_cons in Hr' as [->|Hr']; [lia|].
      apply StronglySorted_inv in Hsorted as [_ Hall].
      rewrite Forall_forall in Hall. by apply Hall.
Qed.
End Mapping.

Lemma C2_keeps_first_in_frame_order_witness :
  ∃ l1 r l2,
    reference_rows
      [Row 1 2023 "livestock" None "P7" (Box 0 0 12 10) 200;
       Row 2 2023 "livestock" None "P7" (Box 0 0 10 10) 100;
       Row 3 2022 "livestock" None "P3" (Box 0 0 5 10) 50] = l1 ++ r :: l2
    ∧ data_paddock_id r = "P7"%string
    ∧ (∀ x, x ∈ l1 → data_paddock_id x ≠ "P7"%string)
    ∧ ("P7"%string, geometry r) ∈ reference_paddocks (with_reference new_matcher
         [Row 1 2023 "livestock" None "P7" (Box 0 0 12 10) 200;
          Row 2 2023 "livestock" None "P7" (Box 0 0 10 10) 100;
          Row 3 2022 "livestock" None "P3" (Box 0 0 5 10) 50])
    ∧ (∀ g, ("P7"%string, g) ∈ reference_paddocks (with_reference new_matcher
         [Row 1 2023 "livestock" None "P7" (Box 0 0 12 10) 200;
          Row 2 2023 "livestock" None "P7" (Box 0 0 10 10) 100;
          Row 3 2022 "livestock" None "P3" (Box 0 0 5 10) 50]) →
            g = geometry r)
    ∧ (by_recency (reference_rows
         [Row 1 2023 "livestock" None "P7" (Box 0 0 12 10) 200;
          Row 2 2023 "livestock" None "P7" (Box 0 0 10 10) 100;
          Row 3 2022 "livestock" None "P3" (Box 0 0 5 10) 50]) →
       ∀ r', r' ∈ reference_rows
         [Row 1 2023 "livestock" None "P7" (Box 0 0 12 10) 200;
          Row 2 2023 "livestock" None "P7" (Box 0 0 10 10) 100;
          Row 3 2022 "livestock" None "P3" (Box 0 0 5 10) 50] →
             data_paddock_id r' = "P7"%string →
             updated_at r' <= updated_at r).
Proof.
  apply (C2_keeps_first_in_frame_order new_matcher).
  vm_compute. left.
Defined.

Section PaddockMapping.
Context {geom : Type} `{Shapely geom}.

Lemma fold_self_lookup (refs : list (string * geom)) (m : gmap string string) p :
  fold_left (fun m rp => <[fst rp := fst rp]> m) refs m !! p =
  if decide (p ∈ refs.*1) then Some p else m !! p.
Proof.
  revert m. induction refs as [|rp refs IH]; intros m.
  - rewrite decide_False by apply not_elem_of_nil. done.
  - simpl fold_left. rewrite IH, fmap_cons. destruct (decide (p ∈ refs.*1)) as [Hin|Hin].
    + rewrite decide_True by set_solver. done.
    + destruct (decide (p = fst rp)) as [->|Hne].
      * rewrite decide_True by set_solver. by rewrite lookup_insert_eq.
      * rewrite decide_False by set_solver. by rewrite lookup_insert_ne.
Qed.

Lemma fold_insert_other {A} (f : gmap string string → A → gmap string string)
    (key val : A → string) (l : list A) (m : gmap string string) p :
  (∀ m r, f m r = <[key r := val r]> m) →
  p ∉ key <$> l → fold_left f l m !! p = m !! p.
Proof.
  intros Hf. revert m. induction l as [|x l IH]; intros m Hp; simpl; [done|].
  rewrite IH by set_solver. rewrite Hf, lookup_insert_ne; [done|]. set_solver.
Qed.

Lemma fold_insert_lookup {A} (f : gmap string string → A → gmap string string)
    (key val : A → string) (l : list A) (m : gmap string string) r :
  (∀ m r, f m r = <[key r := val r]> m) →
  NoDup (key <$> l) → r ∈ l → fold_left f l m !! key r = Some (val r).
Proof.
  intros Hf. revert m. induction l as [|x l IH]; intros m Hnd Hr; simpl.
  - by apply elem_of_nil in Hr.
  - rewrite fmap_cons in Hnd. apply NoDup_cons in Hnd as [Hx Hnd].
    apply elem_of_cons in Hr as [->|Hr].
    + rewrite (fold_insert_other f key val) by done.
      by rewrite Hf, lookup_insert_eq.
    + by apply IH.
Qed.

Lemma map_historical_insert (cfg : ETLConfig) (self : SpatialMatcher geom) m paddock :
  map_historical cfg self m paddock =
  <[data_paddock_id paddock := historical_target cfg self paddock]> m.
Proof.
  unfold map_historical, historical_target.
  destruct (find_best_spatial_match self (geometry paddock)) as [[b|] ratio]; [|done].
  by destruct (truthy_id (Some b) && SFleb (min_overlap_threshold cfg) ratio).
Qed.

Lemma drop_duplicates_first (seen : list string) (l : list (row geom)) r :
  r ∈ drop_duplicates seen l →
  (data_paddock_id r ∉ seen) ∧ first_with_id (data_paddock_id r) l = Some r.
Proof.
  revert seen. induction l as [|x l IH]; intros seen; simpl.
  - by intros ?%elem_of_nil.
  - unfold first_with_id. simpl. case_bool_decide as Hseen.
    + intros [Hr Hf]%IH. split; [done|].
      destruct (String.eqb (data_paddock_id x) (data_paddock_id r)) eqn:E; [|done].
      apply String.eqb_eq in E. congruence.
    + intros [->|Hr]%elem_of_cons.
      * by rewrite String.eqb_refl.
      * apply IH in Hr as [Hr Hf]. split; [set_solver|].
        destruct (String.eqb (data_paddock_id x) (data_paddock_id r)) eqn:E; [|done].
        apply String.eqb_eq in E. set_solver.
Qed.

Lemma drop_duplicates_keeps (seen : list string) (l : list (row geom)) p r :
  p ∉ seen → first_with_id p l = Some r → r ∈ drop_duplicates seen l.
Proof.
  revert seen. unfold first_with_id.
  induction l as [|x l IH]; intros seen Hp; simpl; [done|].
  destruct (String.eqb (data_paddock_id x) p) eqn:E.
  - apply String.eqb_eq in E. intros [= ->].
    rewrite bool_decide_eq_false_2 by congruence. by left.
  - apply String.eqb_neq in E. intros Hf. case_bool_decide.
    + by apply IH.
    + right. apply IH; [set_solver|done].
Qed.

Lemma drop_duplicates_NoDup (seen : list string) (l : list (row geom)) :
  NoDup (data_paddock_id <$> drop_duplicates seen l).
Proof.
  revert seen. induction l as [|x l IH]; intros seen; simpl.
  - constructor.
  - case_bool_decide; [apply IH|].
    rewrite fmap_cons. apply NoDup_cons. split; [|apply IH].
    intros (r & Heq & Hr)%list_elem_of_fmap_1.
    apply drop_duplicates_first in Hr as [Hr _]. set_solver.
Qed.

(** The mapping after [create_paddock_mapping]: a reference id maps to
    itself, and any other id of a historical row maps to the target
    computed from the first historical row that carries it. *)
Lemma mapping_reference (cfg : ETLConfig) (self : SpatialMatcher geom) gdf p :
  p ∈ paddock_ids (reference_rows gdf) →
  paddock_mapping (spatial_matching cfg self gdf) !! p = Some p.
Proof.
  intros Hp. unfold spatial_matching, create_paddock_mapping. simpl.
  rewrite fold_self_lookup. rewrite decide_True; [done|].
  by apply groupby_first_keys.
Qed.

Lemma mapping_historical (cfg : ETLConfig) (self : SpatialMatcher geom) gdf p r :
  p ∉ paddock_ids (reference_rows gdf) →
  first_with_id p (historical_rows gdf) = Some r →
  paddock_mapping (spatial_matching cfg self gdf) !! p =
  Some (historical_target cfg (with_reference self gdf) r).
Proof.
  intros Hp Hf. unfold spatial_matching, create_paddock_mapping. simpl.
  rewrite fold_self_lookup. rewrite decide_False by (by rewrite groupby_first_keys).
  pose proof (first_with_id_elem _ _ _ Hf) as [_ <-].
  apply (fold_insert_lookup _ data_paddock_id
           (historical_target cfg (with_reference self gdf))).
  - apply map_historical_insert.
  - apply drop_duplicates_NoDup.
  - eapply drop_duplicates_keeps; [|done]. apply not_elem_of_nil.
Qed.

Lemma historical_target_cases (cfg : ETLConfig) (self : SpatialMatcher geom) r :
  historical_target cfg self r ∈ (reference_paddocks self).*1
  ∨ historical_target cfg self r = data_paddock_id r.
Proof.
  unfold historical_target.
  destruct (find_best_spatial_match self (geometry r)) as [[b|] ratio] eqn:E;
    [|by right].
  destruct (truthy_id (Some b) && SFleb (min_overlap_threshold cfg) ratio);
    [|by right].
  left. by eapply find_best_in_refs.
Qed.

Lemma reference_paddocks_spatial_matching (cfg : ETLConfig)
    (self : SpatialMatcher geom) gdf :
  reference_paddocks (spatial_matching cfg self gdf) =
  reference_paddocks (with_reference self gdf).
Proof. reflexivity. Qed.

Lemma row_reference_or_historical (gdf : list (row geom)) r :
  r ∈ gdf → r ∈ reference_rows gdf ∨ r ∈ historical_rows gdf.
Proof.
  intros Hr%list_elem_of_In. unfold reference_rows, historical_rows.
  destruct (in_reference_year (max_year gdf) r) eqn:E.
  - left. apply list_elem_of_In, filter_In. done.
  - right. apply list_elem_of_In, filter_In. by rewrite E.
Qed.


(** The claim of C4 holds whenever no reference paddock has the empty
    string as its id. *)
Lemma mapping_post_nonempty_ids (cfg : ETLConfig) (self : SpatialMatcher geom) gdf :
  ""%string ∉ paddock_ids (reference_rows gdf) →
  mapping_post_spec cfg self gdf.
Proof.
  intros Hne. split; [|intros p; apply mapping_reference].
  intros h r Hh Hf. rewrite (mapping_historical _ _ _ _ _ Hh Hf).
  pose proof (first_with_id_elem _ _ _ Hf) as [_ <-].
  unfold historical_target.
  destruct (find_best_spatial_match _ (geometry r)) as [[b|] ratio] eqn:E; [|done].
  assert (Hb : truthy_id (Some b) = true).
  { simpl. apply negb_true_iff, String.eqb_neq. intros ->.
    apply find_best_in_refs in E.
    rewrite reference_paddocks_with_reference, groupby_first_keys in E. done. }
  by rewrite Hb.
Qed.
End PaddockMapping.

Example scenario_mapping :
  let m := paddock_mapping (spatial_matching default_config new_matcher scenario_farm) in
  (m !! "A"%string, m !! "B"%string, m !! "C"%string)
  = (Some "A"%string, Some "B"%string, Some "A"%string).
Proof. vm_compute. reflexivity. Qed.



(** C4 at a farm whose reference paddock has the empty id: the best
    match of H exists, with ratio 1.0 above the threshold, and yet H is
    mapped to itself, because the test [if best_match and ...] takes the
    empty string for "no match". *)
Theorem C4_empty_reference_id_unmatched :
  find_best_spatial_match (with_reference new_matcher unnamed_farm) (Box 0 0 5 10)
  = (Some ""%string, binary_normalize 53 1024 1 0 false)
  ∧ SFleb (min_overlap_threshold default_config)
          (binary_normalize 53 1024 1 0 false) = true
  ∧ paddock_mapping (spatial_matching default_config new_matcher unnamed_farm)
      !! "H"%string = Some "H"%string
  ∧ ¬ mapping_post_spec default_config new_matcher unnamed_farm.
Proof.
  split; [vm_compute; reflexivity|]. split; [vm_compute; reflexivity|].
  split; [vm_compute; reflexivity|].
  intros [Hh _].
  specialize (Hh "H"%string (Row 2 2022 "production" None "H" (Box 0 0 5 10) 10)).
  assert (Hcontra : Some "H"%string = Some ""%string); [|discriminate Hcontra].
  etransitivity; [|etransitivity; [apply Hh|]].
  - vm_compute. reflexivity.
  - vm_compute. intros Hin. apply list_elem_of_singleton in Hin. discriminate Hin.
  - vm_compute. reflexivity.
  - vm_compute. reflexivity.
Qed.

(** ** The normaliser *)

Lemma apply_never_raises {py : CPython} (values : list value) (rule : string) (n : Z) :
  ∃ v, _apply_aggregation_rule values rule n = Ok v.
Proof.
  unfold _apply_aggregation_rule.
  destruct (clean_values values) as [|c cs]; [by eexists|].
  destruct (rule_body (c :: cs) rule n); simpl; by eexists.
Qed.

Lemma mapM_Forall2 {A B} (f : A → exn B) (l : list A) (ys : list B) :
  mapM f l = Ok ys → Forall2 (fun x y => f x = Ok y) l ys.
Proof.
  revert ys. induction l as [|x l IH]; intros ys; simpl.
  - intros [= <-]. constructor.
  - destruct (f x) as [y|e] eqn:Hx; simpl; [|done].
    destruct (mapM f l) as [ys'|e] eqn:Hl; simpl; [|done].
    intros [= <-]. constructor; [done|]. by apply IH.
Qed.

Lemma mapM_total {A B} (f : A → exn B) (l : list A) :
  (∀ x, ∃ y, f x = Ok y) → ∃ ys, mapM f l = Ok ys.
Proof.
  intros Hf. induction l as [|x l [ys IH]]; simpl; [by eexists|].
  destruct (Hf x) as [y ->]. rewrite IH. simpl. by eexists.
Qed.

Section Normalizer.
Context {py : CPython} {geom : Type} `{Json}.
Implicit Types (cfg : ETLConfig) (gdf group : list (row geom)).
Implicit Types (paddock_mapping : gmap string string).

Lemma combine_key_ok (rules : gmap string string) group (n : Z)
    (key : string) (m : gmap string value) :
  ∃ m', combine_key rules group n (Ok m) key = Ok m'.
Proof.
  unfold combine_key. simpl.
  destruct (values_of_key group key) as [|v vs]; [by eexists|].
  destruct (apply_never_raises (v :: vs)
              (default "first"%string (rules !! key)) n) as [w ->].
  simpl. by eexists.
Qed.

Lemma combine_fold_ok (rules : gmap string string) group (n : Z)
    (keys : list string) (m : gmap string value) :
  ∃ m', fold_left (combine_key rules group n) keys (Ok m) = Ok m'.
Proof.
  revert m. induction keys as [|key keys IH]; intros m; [by eexists|].
  cbn [fold_left].
  destruct (combine_key_ok rules group n key m) as [m' ->]. apply IH.
Qed.

Lemma combine_total cfg group (ns : string) (n : Z) :
  ∃ d, combine_namespace_data cfg group ns n = Ok d.
Proof.
  unfold combine_namespace_data.
  destruct group as [|r [|r' group]]; [|by eexists|].
  - destruct (combine_fold_ok (default ∅ (namespace_aggregation_rules cfg !! ns))
                [] n (elements (all_keys (geom:=geom) [])) ∅) as [m ->].
    simpl. by eexists.
  - destruct (combine_fold_ok (default ∅ (namespace_aggregation_rules cfg !! ns))
                (r :: r' :: group) n
                (elements (all_keys (r :: r' :: group))) ∅) as [m ->].
    simpl. by eexists.
Qed.

Lemma normalize_group_inv cfg (k : string * Z * string) group rr :
  normalize_group cfg (k, group) = Ok rr →
  r_key3 rr = k
  ∧ ∃ d, combine_namespace_data cfg group (snd k)
           (Z.of_nat (length (remove_dups (data_paddock_id <$> group)))) = Ok d
         ∧ r_data rr = data_cell d.
Proof.
  destruct k as [[p y] ns]. unfold normalize_group. simpl.
  destruct (combine_namespace_data _ _ _ _) as [d|e]; simpl; [|done].
  intros [= <-]. split; [done|]. by exists d.
Qed.

Lemma normalize_group_total cfg (g : (string * Z * string) * list (row geom)) :
  ∃ rr, normalize_group cfg g = Ok rr.
Proof.
  destruct g as [[[p y] ns] group]. unfold normalize_group.
  destruct (combine_total cfg group ns
              (Z.of_nat (length (remove_dups (data_paddock_id <$> group)))))
    as [d ->].
  simpl. by eexists.
Qed.

Lemma groupby_keys paddock_mapping gdf :
  (groupby paddock_mapping gdf).*1 =
  merge_sort key_le (remove_dups (omap (group_key paddock_mapping) gdf)).
Proof.
  unfold groupby. rewrite <- list_fmap_compose.
  apply list_fmap_id.
Qed.

Lemma groupby_keys_NoDup paddock_mapping gdf :
  NoDup (groupby paddock_mapping gdf).*1.
Proof.
  rewrite groupby_keys, merge_sort_Permutation. apply NoDup_remove_dups.
Qed.

Lemma groupby_key_elem paddock_mapping gdf k :
  k ∈ (groupby paddock_mapping gdf).*1 ↔
  ∃ r, r ∈ gdf ∧ group_key paddock_mapping r = Some k.
Proof.
  rewrite groupby_keys, merge_sort_Permutation, elem_of_remove_dups.
  apply list_elem_of_omap.
Qed.

Lemma groupby_elem paddock_mapping gdf k group :
  (k, group) ∈ groupby paddock_mapping gdf →
  group = filter (fun r => group_key paddock_mapping r = Some k) gdf.
Proof.
  unfold groupby. intros (k' & Heq & _)%list_elem_of_fmap_1.
  by injection Heq as -> ->.
Qed.

(** [normalize_farm_data] never raises. *)
Lemma result_data_total cfg gdf paddock_mapping :
  ∃ rd, result_data cfg gdf paddock_mapping = Ok rd.
Proof. apply mapM_total, normalize_group_total. Qed.

Lemma pivot_table_nil : pivot_table [] = Table [] [].
Proof. reflexivity. Qed.

Lemma normalize_farm_data_pivot cfg gdf paddock_mapping rd :
  result_data cfg gdf paddock_mapping = Ok rd →
  normalize_farm_data cfg gdf paddock_mapping = Ok (pivot_table rd).
Proof.
  intros Hrd. unfold normalize_farm_data. rewrite Hrd. simpl.
  by destruct rd.
Qed.

(** Every line of [result_data] comes from one group, and every group
    leaves one line. *)
Lemma result_data_from_group cfg gdf paddock_mapping rd rr :
  result_data cfg gdf paddock_mapping = Ok rd → rr ∈ rd →
  ∃ group, (r_key3 rr, group) ∈ groupby paddock_mapping gdf
           ∧ normalize_group cfg (r_key3 rr, group) = Ok rr.
Proof.
  intros Hrd%mapM_Forall2 [i Hi]%list_elem_of_lookup.
  destruct (Forall2_lookup_r _ _ _ _ _ Hrd Hi) as ([k group] & Hg & Hn).
  pose proof (normalize_group_inv _ _ _ _ Hn) as [<- _].
  exists group. split; [|done]. by eapply list_elem_of_lookup_2.
Qed.

Lemma result_data_of_group cfg gdf paddock_mapping rd k group :
  result_data cfg gdf paddock_mapping = Ok rd →
  (k, group) ∈ groupby paddock_mapping gdf →
  ∃ rr, rr ∈ rd ∧ normalize_group cfg (k, group) = Ok rr.
Proof.
  intros Hrd%mapM_Forall2 [i Hi]%list_elem_of_lookup.
  destruct (Forall2_lookup_l _ _ _ _ _ Hrd Hi) as (rr & Hr & Hn).
  exists rr. split; [|done]. by eapply list_elem_of_lookup_2.
Qed.

Lemma groupby_unique paddock_mapping gdf k g1 g2 :
  (k, g1) ∈ groupby paddock_mapping gdf →
  (k, g2) ∈ groupby paddock_mapping gdf → g1 = g2.
Proof. intros H1%groupby_elem H2%groupby_elem. congruence. Qed.

Lemma result_data_key_unique cfg gdf paddock_mapping rd r1 r2 :
  result_data cfg gdf paddock_mapping = Ok rd →
  r1 ∈ rd → r2 ∈ rd → r_key3 r1 = r_key3 r2 → r1 = r2.
Proof.
  intros Hrd H1 H2 Hk.
  destruct (result_data_from_group _ _ _ _ _ Hrd H1) as (g1 & Hg1 & Hn1).
  destruct (result_data_from_group _ _ _ _ _ Hrd H2) as (g2 & Hg2 & Hn2).
  rewrite Hk in Hg1, Hn1.
  rewrite (groupby_unique _ _ _ _ _ Hg1 Hg2) in Hn1. congruence.
Qed.
End Normalizer.

(** *** The pivot *)

Lemma kept_rows_elem (rd : list result_row) r :
  r ∈ kept_rows rd ↔ r ∈ rd ∧ is_Some (r_data r).
Proof.
  unfold kept_rows. rewrite !list_elem_of_In, filter_In.
  by rewrite bool_decide_eq_true.
Qed.

Lemma cell_of_Some (kept : list result_row) k c s :
  cell_of kept k c = Some s →
  ∃ r, r ∈ kept ∧ r_key2 r = k ∧ r_namespace r = c ∧ r_data r = Some s.
Proof.
  unfold cell_of. destruct (List.find _ kept) as [r|] eqn:E; simpl; [|done].
  intros Hs. apply find_some in E as [Hin Hb].
  apply bool_decide_eq_true in Hb as [Hk Hc].
  exists r. by rewrite list_elem_of_In.
Qed.

Lemma cell_of_unique (kept : list result_row) r :
  r ∈ kept →
  (∀ r', r' ∈ kept → r_key3 r' = r_key3 r → r' = r) →
  cell_of kept (r_key2 r) (r_namespace r) = r_data r.
Proof.
  intros Hin Huniq. unfold cell_of.
  destruct (List.find _ kept) as [r'|] eqn:E; simpl.
  - apply find_some in E as [Hin' Hb].
    apply bool_decide_eq_true in Hb as [Hk Hc].
    rewrite (Huniq r'); [done|by apply list_elem_of_In|].
    unfold r_key3. unfold r_key2 in Hk. by injection Hk as -> ->; rewrite Hc.
  - exfalso. apply list_elem_of_In in Hin.
    pose proof (find_none _ _ E r Hin) as Hb. simpl in Hb.
    apply bool_decide_eq_false in Hb. by apply Hb.
Qed.

Lemma find_row {V} (f : string * Z → V) (index : list (string * Z)) k :
  List.find (fun r => bool_decide (fst r = k)) ((fun k => (k, f k)) <$> index)
  = if decide (k ∈ index) then Some (k, f k) else None.
Proof.
  induction index as [|x index IH].
  - rewrite decide_False by apply not_elem_of_nil. done.
  - rewrite fmap_cons. simpl. case_bool_decide as Hx.
    + subst x. rewrite decide_True by left. done.
    + rewrite IH. destruct (decide (k ∈ index)) as [Hin|Hin].
      * rewrite decide_True by (by right). done.
      * rewrite decide_False; [done|]. by intros [->|?]%elem_of_cons.
Qed.

Lemma fmap_fst_pair {K V} (f : K → V) (l : list K) :
  ((fun k => (k, f k)) <$> l).*1 = l.
Proof. rewrite <- list_fmap_compose. apply list_fmap_id. Qed.

Lemma pivot_index_elem (rd : list result_row) k :
  k ∈ (rows (pivot_table rd)).*1 ↔ ∃ r, r ∈ kept_rows rd ∧ r_key2 r = k.
Proof.
  unfold pivot_table. simpl. rewrite fmap_fst_pair.
  rewrite merge_sort_Permutation, elem_of_remove_dups, list_elem_of_fmap.
  fold (kept_rows rd). split; intros (r & ? & ?); exists r; done.
Qed.

Lemma pivot_index_NoDup (rd : list result_row) : NoDup (rows (pivot_table rd)).*1.
Proof.
  unfold pivot_table. simpl. rewrite fmap_fst_pair.
  rewrite merge_sort_Permutation. apply NoDup_remove_dups.
Qed.

Lemma pivot_columns_elem (rd : list result_row) c :
  c ∈ columns (pivot_table rd) ↔ ∃ r, r ∈ kept_rows rd ∧ r_namespace r = c.
Proof.
  unfold pivot_table. simpl.
  rewrite merge_sort_Permutation, elem_of_remove_dups, list_elem_of_fmap.
  fold (kept_rows rd). split; intros (r & ? & ?); exists r; done.
Qed.

(** A cell of the pivot is the value of the kept line of that row and
    that column. *)
Lemma pivot_cell_Some (rd : list result_row) k c s :
  cell (pivot_table rd) k c = Some s → cell_of (kept_rows rd) k c = Some s.
Proof.
  unfold cell, pivot_table. simpl. fold (kept_rows rd).
  rewrite find_row. case_decide; simpl; [|done].
  destruct (list_find _ _) as [[i c']|] eqn:E; simpl; [|done].
  apply list_find_Some in E as (Hi & -> & _).
  rewrite list_lookup_fmap, Hi. done.
Qed.

Lemma pivot_cell_kept (rd : list result_row) r :
  r ∈ kept_rows rd →
  cell (pivot_table rd) (r_key2 r) (r_namespace r)
  = cell_of (kept_rows rd) (r_key2 r) (r_namespace r).
Proof.
  intros Hr.
  assert (Hk : r_key2 r ∈ (rows (pivot_table rd)).*1)
    by (apply pivot_index_elem; by exists r).
  assert (Hc : r_namespace r ∈ columns (pivot_table rd))
    by (apply pivot_columns_elem; by exists r).
  revert Hk Hc. unfold cell, pivot_table. simpl. fold (kept_rows rd).
  rewrite fmap_fst_pair.
  intros Hk Hc. rewrite find_row, decide_True by done. simpl.
  destruct (list_find_elem_of (fun c => c = r_namespace r) _ _ Hc eq_refl)
    as [[i c'] E].
  rewrite E. simpl. apply list_find_Some in E as (Hi & -> & _).
  rewrite list_lookup_fmap, Hi. done.
Qed.

Section NormalizerCells.
Context {py : CPython} {geom : Type} `{Json}.
Implicit Types (cfg : ETLConfig) (gdf group : list (row geom)).
Implicit Types (paddock_mapping : gmap string string).

(** A cell with a value comes from a line of [result_data]. *)
Lemma cell_from_result cfg gdf paddock_mapping rd k c s :
  result_data cfg gdf paddock_mapping = Ok rd →
  cell (pivot_table rd) k c = Some s →
  ∃ rr, rr ∈ rd ∧ r_key3 rr = (k, c) ∧ r_data rr = Some s.
Proof.
  intros Hrd (rr & [Hin _]%kept_rows_elem & Hk & Hc & Hd)%pivot_cell_Some%cell_of_Some.
  exists rr. split; [done|]. split; [|done].
  unfold r_key3. unfold r_key2 in Hk. by rewrite <- Hk, <- Hc.
Qed.

Lemma cell_of_result cfg gdf paddock_mapping rd rr :
  result_data cfg gdf paddock_mapping = Ok rd → rr ∈ rd →
  cell (pivot_table rd) (r_key2 rr) (r_namespace rr) = r_data rr.
Proof.
  intros Hrd Hin. destruct (r_data rr) as [s|] eqn:Hd.
  - assert (Hk : rr ∈ kept_rows rd) by (apply kept_rows_elem; by rewrite Hd).
    rewrite pivot_cell_kept by done. rewrite <- Hd.
    apply cell_of_unique; [done|].
    intros r' [Hr' _]%kept_rows_elem Hkey.
    by eapply result_data_key_unique.
  - destruct (cell _ _ _) as [s|] eqn:Hc; [|done].
    destruct (cell_from_result _ _ _ _ _ _ _ Hrd Hc) as (r' & Hr' & Hkey & Hs).
    assert (r' = rr) as -> by (by eapply result_data_key_unique).
    congruence.
Qed.

Lemma cell_without_group cfg gdf paddock_mapping rd k c :
  result_data cfg gdf paddock_mapping = Ok rd →
  (k, c) ∉ (groupby paddock_mapping gdf).*1 →
  cell (pivot_table rd) k c = None.
Proof.
  intros Hrd Hk. destruct (cell _ _ _) as [s|] eqn:Hc; [|done].
  destruct (cell_from_result _ _ _ _ _ _ _ Hrd Hc) as (rr & Hr & Hkey & _).
  destruct (result_data_from_group _ _ _ _ _ Hrd Hr) as (g & Hg & _).
  destruct Hk. rewrite <- Hkey. by apply (list_elem_of_fmap_2 fst) in Hg.
Qed.

(** C10: when the combined data of a group is empty (or null), its line
    of [result_data] carries null, the cell of its namespace in the
    output has no value, and this is also what the cell of a
    (paddock, year, namespace) without any record looks like. *)
Theorem C10_empty_data_is_null cfg gdf paddock_mapping
    (k : string * Z * string) group (d : option (gmap string value)) :
  (k, group) ∈ groupby paddock_mapping gdf →
  combine_namespace_data cfg group (snd k)
    (Z.of_nat (length (remove_dups (data_paddock_id <$> group)))) = Ok d →
  truthy_data d = false →
  ∃ rd t,
    result_data cfg gdf paddock_mapping = Ok rd
    ∧ normalize_farm_data cfg gdf paddock_mapping = Ok t
    ∧ (∃ rr, rr ∈ rd ∧ r_key3 rr = k ∧ r_data rr = None)
    ∧ cell t (fst k) (snd k) = None
    ∧ (∀ k', k' ∉ (groupby paddock_mapping gdf).*1 →
             cell t (fst k') (snd k') = cell t (fst k) (snd k)).
Proof.
  intros Hg Hd Ht.
  destruct (result_data_total cfg gdf paddock_mapping) as [rd Hrd].
  exists rd, (pivot_table rd). split; [done|].
  split; [by apply normalize_farm_data_pivot|].
  destruct (result_data_of_group _ _ _ _ _ _ Hrd Hg) as (rr & Hin & Hn).
  apply normalize_group_inv in Hn as (Hkey & d' & Hd' & Hdata).
  rewrite Hd in Hd'. injection Hd' as <-.
  unfold data_cell in Hdata. rewrite Ht in Hdata.
  assert (Hcell : cell (pivot_table rd) (fst k) (snd k) = None).
  { rewrite <- Hdata, <- Hkey. by apply (cell_of_result cfg gdf paddock_mapping). }
  split; [by exists rr|]. split; [done|].
  intros [k2 c] Hk'. rewrite Hcell. by eapply cell_without_group.
Qed.
End NormalizerCells.

(** *** Identity mapping, one record per group *)

Lemma filter_none {A} (P : A → Prop) `{∀ x, Decision (P x)} (l : list A) :
  (∀ y, y ∈ l → ¬ P y) → filter P l = [].
Proof.
  induction l as [|x l IH]; intros Hn; [done|].
  rewrite filter_cons, decide_False by (apply Hn; left).
  apply IH. intros y Hy. apply Hn. by right.
Qed.

Section NormalizerIdentity.
Context {py : CPython} {geom : Type} `{Json}.
Implicit Types (cfg : ETLConfig) (gdf group : list (row geom)).
Implicit Types (paddock_mapping : gmap string string).

Lemma filter_single {K} `{EqDecision K} (f : row geom → K)
    (P : row geom → Prop) `{∀ x, Decision (P x)} (l : list (row geom)) r :
  NoDup (f <$> l) → r ∈ l → (∀ x, x ∈ l → P x ↔ f x = f r) →
  filter P l = [r].
Proof.
  induction l as [|x l IH]; intros Hnd Hr HP; [by apply elem_of_nil in Hr|].
  rewrite fmap_cons in Hnd. apply NoDup_cons in Hnd as [Hx Hnd].
  rewrite filter_cons.
  destruct (decide (f x = f r)) as [Hfx|Hfx].
  - assert (x = r) as ->.
    { apply elem_of_cons in Hr as [->|Hr]; [done|].
      destruct Hx. rewrite Hfx. by apply list_elem_of_fmap_2. }
    rewrite decide_True by (apply HP; [left|done]).
    f_equal. apply filter_none. intros y Hy Hpy.
    apply HP in Hpy; [|by right]. destruct Hx. rewrite <- Hpy.
    by apply list_elem_of_fmap_2.
  - apply elem_of_cons in Hr as [->|Hr]; [done|].
    rewrite decide_False.
    + apply IH; [done..|]. intros y Hy. apply HP. by right.
    + intros Hpx. apply HP in Hpx; [done|left].
Qed.

Lemma identity_group_key paddock_mapping gdf r :
  identity_mapping paddock_mapping gdf → r ∈ gdf →
  group_key paddock_mapping r = Some (row_key3 r).
Proof. intros Hid Hr. unfold group_key. by rewrite (Hid r Hr). Qed.

Lemma identity_group paddock_mapping gdf r :
  identity_mapping paddock_mapping gdf → single_record_groups gdf → r ∈ gdf →
  (row_key3 r, [r]) ∈ groupby paddock_mapping gdf.
Proof.
  intros Hid Hs Hr.
  assert (Hk : row_key3 r ∈ (groupby paddock_mapping gdf).*1).
  { apply groupby_key_elem. exists r. split; [done|].
    by apply (identity_group_key _ gdf). }
  apply list_elem_of_fmap_1 in Hk as ([k g] & Hk & Hin). simpl in Hk. subst k.
  pose proof (groupby_elem _ _ _ _ Hin) as Hg.
  rewrite (filter_single row_key3 _ gdf r) in Hg; [by subst g|done..|].
  intros x Hx. rewrite (identity_group_key _ _ _ Hid Hx). split; congruence.
Qed.

(** The line that a record leaves in [result_data]. *)
Lemma identity_result cfg gdf paddock_mapping rd r :
  identity_mapping paddock_mapping gdf → single_record_groups gdf →
  result_data cfg gdf paddock_mapping = Ok rd → r ∈ gdf →
  ∃ rr, rr ∈ rd ∧ r_key3 rr = row_key3 r ∧ r_data rr = data_cell (data r).
Proof.
  intros Hid Hs Hrd Hr.
  destruct (result_data_of_group _ _ _ _ _ _ Hrd (identity_group _ _ _ Hid Hs Hr))
    as (rr & Hin & Hn).
  apply normalize_group_inv in Hn as (Hkey & d & Hd & Hdata).
  exists rr. split; [done|]. split; [done|].
  simpl in Hd. injection Hd as <-. done.
Qed.

Lemma data_cell_is_Some (d : option (gmap string value)) :
  is_Some (data_cell d) ↔ truthy_data d = true.
Proof.
  unfold data_cell. destruct (truthy_data d) eqn:E.
  - split; [done|]. intros _. destruct d; [by eexists|done].
  - split; [by intros [? ?]|done].
Qed.

(** C9, amended: under an identity mapping, with one record per
    (paddock, year, namespace), the cell of a record's namespace holds the
    serialisation of the record's data when that data is a non-empty dict
    and null otherwise; the rows of the output are the (paddock, year) of
    the records with non-empty data, one row each. *)
Theorem C9_identity_normalization cfg gdf paddock_mapping :
  identity_mapping paddock_mapping gdf → single_record_groups gdf →
  ∃ t, normalize_farm_data cfg gdf paddock_mapping = Ok t
       ∧ (∀ r, r ∈ gdf →
               cell t (data_paddock_id r, year r) (namespace r)
               = data_cell (data r))
       ∧ (∀ k, k ∈ (rows t).*1 ↔
               ∃ r, r ∈ gdf ∧ k = (data_paddock_id r, year r)
                    ∧ truthy_data (data r) = true)
       ∧ NoDup (rows t).*1.
Proof.
  intros Hid Hs.
  destruct (result_data_total cfg gdf paddock_mapping) as [rd Hrd].
  exists (pivot_table rd). split; [by apply normalize_farm_data_pivot|].
  split; [|split; [|apply pivot_index_NoDup]].
  - intros r Hr.
    destruct (identity_result _ _ _ _ _ Hid Hs Hrd Hr) as (rr & Hin & Hkey & Hdata).
    rewrite <- Hdata.
    unfold r_key3, row_key3 in Hkey. injection Hkey as <- <- <-.
    by apply (cell_of_result cfg gdf paddock_mapping).
  - intros k. rewrite pivot_index_elem. split.
    + intros (rr & [Hin Hsome]%kept_rows_elem & <-).
      destruct (result_data_from_group _ _ _ _ _ Hrd Hin) as (g & Hg & Hn).
      pose proof (list_elem_of_fmap_2 fst _ _ Hg) as Hk. simpl in Hk.
      apply groupby_key_elem in Hk as (r & Hr & Hgk).
      rewrite (identity_group_key _ _ _ Hid Hr) in Hgk.
      destruct (identity_result _ _ _ _ _ Hid Hs Hrd Hr) as (rr' & Hin' & Hkey' & Hdata').
      assert (rr' = rr) as ->.
      { eapply result_data_key_unique; [done..|]. congruence. }
      exists r. split; [done|]. split.
      * unfold r_key2. unfold r_key3, row_key3 in Hkey'. by injection Hkey' as -> -> _.
      * apply data_cell_is_Some. by rewrite <- Hdata'.
    + intros (r & Hr & -> & Ht).
      destruct (identity_result _ _ _ _ _ Hid Hs Hrd Hr) as (rr & Hin & Hkey & Hdata).
      exists rr. split.
      * apply kept_rows_elem. split; [done|].
        rewrite Hdata. by apply data_cell_is_Some.
      * unfold r_key2. unfold r_key3, row_key3 in Hkey. by injection Hkey as -> -> _.
Qed.
End NormalizerIdentity.

(** C9, as stated, fails: the record of B has the empty dict as data,
    and its cell is null, not the serialised empty dict. *)
Lemma C9_empty_data_not_passed_through :
  ¬ normalizer_identity_spec (py:=cpython_3_11) (H:=keys_json)
      default_config settled_farm settled_mapping
  ∧ ¬ normalizer_identity_spec (py:=cpython_3_12) (H:=keys_json)
        default_config settled_farm settled_mapping.
Proof.
  split; intros (t & Ht & Hcell & _);
    vm_compute in Ht; injection Ht as <-;
    specialize (Hcell (Row 2 2023 "production" (Some ∅) "B" (Box 10 0 20 10) 20));
    (assert (Hc : @None string = Some "{}"%string); [|discriminate Hc]);
    (etransitivity; [|etransitivity; [apply Hcell|]]);
    [vm_compute; reflexivity|right; left|vm_compute; reflexivity
    |vm_compute; reflexivity|right; left|vm_compute; reflexivity].
Qed.

Lemma C9_identity_normalization_witness :
  ∃ t, normalize_farm_data (py:=cpython_3_12) (H:=keys_json) default_config settled_farm settled_mapping = Ok t
       ∧ (∀ r, r ∈ settled_farm →
               cell t (data_paddock_id r, year r) (namespace r)
               = data_cell (H:=keys_json) (data r))
       ∧ (∀ k, k ∈ (rows t).*1 ↔
               ∃ r, r ∈ settled_farm ∧ k = (data_paddock_id r, year r)
                    ∧ truthy_data (data r) = true)
       ∧ NoDup (rows t).*1.
Proof.
  apply C9_identity_normalization.
  - intros r Hr. unfold settled_farm in Hr.
    apply elem_of_cons in Hr as [->|Hr]; [vm_compute; reflexivity|].
    apply list_elem_of_singleton in Hr as ->. vm_compute. reflexivity.
  - unfold single_record_groups. vm_compute.
    apply NoDup_cons. split; [|apply NoDup_singleton].
    intros Hin. apply list_elem_of_singleton in Hin. discriminate Hin.
Defined.

Lemma C10_empty_data_is_null_witness :
  ∃ rd t,
    result_data (py:=cpython_3_12) (H:=keys_json) default_config settled_farm settled_mapping = Ok rd
    ∧ normalize_farm_data (py:=cpython_3_12) (H:=keys_json) default_config settled_farm settled_mapping = Ok t
    ∧ (∃ rr, rr ∈ rd ∧ r_key3 rr = ("B"%string, 2023, "production"%string)
             ∧ r_data rr = None)
    ∧ cell t ("B"%string, 2023) "production"%string = None
    ∧ (∀ k', k' ∉ (groupby settled_mapping settled_farm).*1 →
             cell t (fst k') (snd k') = cell t ("B"%string, 2023) "production"%string).
Proof.
  apply (C10_empty_data_is_null (H:=keys_json) default_config settled_farm settled_mapping
           ("B"%string, 2023, "production"%string)
           [Row 2 2023 "production" (Some ∅) "B" (Box 10 0 20 10) 20] (Some ∅)).
  - vm_compute. right. left.
  - reflexivity.
  - reflexivity.
Defined.

(** ** The scenarios of the specification *)

(** A historical box inside exactly one reference box: ratio 1.0, and that
    box is the match; two boxes apart: no match. *)
Example contained_box_matches :
  find_best_spatial_match (with_reference new_matcher scenario_farm) (Box 0 0 5 10)
  = (Some "A"%string, binary_normalize 53 1024 1 0 false)
  ∧ find_best_spatial_match (with_reference new_matcher remote_farm)
      (Box 100 100 110 110) = (None, S754_zero false).
Proof. split; vm_compute; reflexivity. Qed.

(** Records of different years are not merged: two rows for A. *)
Example scenario_rows :
  (λ t, (columns t, (rows t).*1)) <$>
    normalize_farm_data (py:=cpython_3_12) (H:=keys_json) default_config scenario_farm
      (paddock_mapping (spatial_matching default_config new_matcher scenario_farm))
  = Ok (["production"%string], [("A"%string, 2022); ("A"%string, 2023)]).
Proof. vm_compute. reflexivity. Qed.

(** Two records of 2022 merged on one reference paddock under rule
    "sum": 10 and 15 give 25.0, with a paddock count of 2. *)
Example true_merge :
  (λ d, d ≫= (.!! "animal_count"%string)) <$>
    combine_namespace_data (py:=cpython_3_12) default_config
      [ Row 1 2022 "livestock" (Some {[ "animal_count"%string := VInt 10 ]})
            "C1" (Box 0 0 5 10) 10;
        Row 2 2022 "livestock" (Some {[ "animal_count"%string := VInt 15 ]})
            "C2" (Box 5 0 10 10) 10 ]
      "livestock" 2
  = Ok (Some (VFloat (binary_normalize 53 1024 25 0 false))).
Proof. vm_compute. reflexivity. Qed.

(** * Further properties *)

(** ** The rule engine beyond "sum", "divide" and "majority" *)

Lemma clean_values_drop_none (l1 l2 : list value) :
  clean_values (l1 ++ VNone :: l2) = clean_values (l1 ++ l2).
Proof.
  unfold clean_values. rewrite !filter_app, filter_cons.
  by rewrite decide_False by done.
Qed.

(** X1: a null entry never influences the result: the engine answers on
    a list with a null entry, wherever it stands, what it answers on the
    list without that entry. *)
Theorem X1_nulls_do_not_count {py : CPython} (l1 l2 : list value)
    (rule : string) (n : Z) :
  _apply_aggregation_rule (l1 ++ VNone :: l2) rule n
  = _apply_aggregation_rule (l1 ++ l2) rule n.
Proof. unfold _apply_aggregation_rule. by rewrite clean_values_drop_none. Qed.

Lemma clean_values_split (values : list value) v rest :
  clean_values values = v :: rest →
  ∃ l1 l2, values = l1 ++ v :: l2 ∧ Forall (fun x => x = VNone) l1
           ∧ v ≠ VNone ∧ rest = clean_values l2.
Proof.
  unfold clean_values. induction values as [|x xs IH]; [done|].
  rewrite filter_cons. destruct (decide (is_not_none x = true)) as [Hx|Hx].
  - intros [= -> <-]. exists [], xs. split; [done|]. split; [constructor|].
    split; [|done]. by intros ->.
  - intros (l1 & l2 & -> & Hl1 & Hv & Hr)%IH.
    exists (x :: l1), l2. split; [done|]. split; [|done].
    constructor; [|done]. destruct x; simpl in Hx; congruence.
Qed.

(** X2: rule "first", which is also what a rule name the engine does not
    know falls back to, returns the first entry of the list that is not
    null. *)
Theorem X2_first_rule {py : CPython} (values : list value) (rule : string) (n : Z) :
  rule = "first"%string ∨ ¬ known_rule rule →
  clean_values values ≠ [] →
  ∃ l1 v l2, values = l1 ++ v :: l2 ∧ Forall (fun x => x = VNone) l1
             ∧ v ≠ VNone ∧ _apply_aggregation_rule values rule n = Ok v.
Proof.
  intros Hrule Hne.
  destruct (clean_values values) as [|v rest] eqn:Hc; [done|].
  destruct (clean_values_split _ _ _ Hc) as (l1 & l2 & Hv & Hl1 & Hnn & _).
  exists l1, v, l2. do 3 (split; [done|]).
  unfold _apply_aggregation_rule. rewrite Hc.
  destruct Hrule as [->|Hk]; [reflexivity|].
  unfold rule_body.
  destruct (String.eqb rule "sum") eqn:E1;
    [apply String.eqb_eq in E1; subst; exfalso; apply Hk; set_solver|].
  destruct (String.eqb rule "mean") eqn:E2;
    [apply String.eqb_eq in E2; subst; exfalso; apply Hk; set_solver|].
  destruct (String.eqb rule "divide_by_paddock_count") eqn:E3;
    [apply String.eqb_eq in E3; subst; exfalso; apply Hk; set_solver|].
  destruct (String.eqb rule "first") eqn:E4; [reflexivity|].
  destruct (String.eqb rule "majority") eqn:E5;
    [apply String.eqb_eq in E5; subst; exfalso; apply Hk; set_solver|].
  reflexivity.
Qed.

Lemma X2_first_rule_witness :
  ∃ l1 v l2, [VNone; VStr "wheat"; VInt 3] = l1 ++ v :: l2
             ∧ Forall (fun x => x = VNone) l1 ∧ v ≠ VNone
             ∧ _apply_aggregation_rule (py:=cpython_3_12) [VNone; VStr "wheat"; VInt 3] "median" 2 = Ok v.
Proof.
  apply X2_first_rule.
  - right. unfold known_rule. intros Hin.
    repeat (apply elem_of_cons in Hin as [Hin|Hin]; [discriminate Hin|]).
    by apply elem_of_nil in Hin.
  - vm_compute. discriminate.
Defined.

(** X3: rule "mean": when some entry is not null and the ints are within
    the range of a double, the result is null when no entry is numeric,
    and otherwise the sum of the numeric entries, in double precision as
    rule "sum" computes it, divided by their number and rounded to a
    double. *)
Theorem X3_mean_rule {py : CPython} (values : list value) (n : Z) :
  some_value values → Forall in_float_range values →
  Z.of_nat (length (numeric_doubles values)) < float_overflow_bound →
  _apply_aggregation_rule values "mean" n
  = Ok (match numeric_doubles values with
        | [] => VNone
        | fs => VFloat (SFdiv 53 1024 (double_sum fs)
                  (binary_normalize 53 1024 (Z.of_nat (length fs)) 0 false))
        end).
Proof.
  intros Hne%some_value_clean Hr Hlen. rewrite apply_nonempty by done.
  unfold rule_body. cbn [String.eqb Ascii.eqb Bool.eqb].
  rewrite numeric_total by done. unfold mbind, exn_bind.
  destruct (numeric_doubles values) as [|x xs] eqn:Hns; [reflexivity|].
  rewrite py_sum_double_sum. unfold py_truediv.
  destruct (Z.of_nat (length (x :: xs)) =? 0) eqn:Hz;
    [apply Z.eqb_eq in Hz; simpl in Hz; lia|].
  unfold float_of_int.
  assert (Hin : (Z.abs (Z.of_nat (length (x :: xs))) <? float_overflow_bound) = true)
    by (apply Z.ltb_lt; lia).
  by rewrite Hin.
Qed.

Lemma X3_mean_rule_witness :
  _apply_aggregation_rule (py:=cpython_3_12)
    [VFloat (S754_finite false 3 (-1)); VNone; VInt 2; VStr "x"] "mean" 5
  = Ok (match numeric_doubles
                [VFloat (S754_finite false 3 (-1)); VNone; VInt 2; VStr "x"]
        with
        | [] => VNone
        | fs => VFloat (SFdiv 53 1024 (double_sum (py:=cpython_3_12) fs)
                  (binary_normalize 53 1024 (Z.of_nat (length fs)) 0 false))
        end).
Proof.
  apply X3_mean_rule.
  - exists (VInt 2). split; [right; right; left|discriminate].
  - repeat constructor; vm_compute; reflexivity.
  - vm_compute. reflexivity.
Defined.

Lemma mapM_raises {A B} (f : A → exn B) (l : list A) x e :
  x ∈ l → f x = Raised e → ∃ e', mapM f l = Raised e'.
Proof.
  induction l as [|y l IH]; intros Hx Hf; [by apply elem_of_nil in Hx|].
  simpl. apply elem_of_cons in Hx as [<-|Hx].
  - rewrite Hf. simpl. by eexists.
  - destruct (f y); simpl; [|by eexists].
    destruct (IH Hx Hf) as [e' ->]. simpl. by eexists.
Qed.

Lemma numeric_floats_overflow (clean : list value) z :
  VInt z ∈ clean → float_overflow_bound <= Z.abs z →
  ∃ e, numeric_floats clean = Raised e.
Proof.
  intros Hin Hz. unfold numeric_floats.
  apply (mapM_raises py_float _ (VInt z) "OverflowError").
  - apply list_elem_of_filter. by split.
  - simpl. unfold float_of_int.
    assert (Hlt : (Z.abs z <? float_overflow_bound) = false) by (apply Z.ltb_ge; lia).
    by rewrite Hlt.
Qed.

(** X4: an int beyond the range of a double makes each numeric rule
    fail inside the [try] block; the engine then answers the first
    surviving value, whatever the other entries are. *)
Theorem X4_overflow_falls_back {py : CPython} (values : list value) (rule : string) (n z : Z) :
  rule ∈ ["sum"; "mean"; "divide_by_paddock_count"]%string →
  VInt z ∈ values → float_overflow_bound <= Z.abs z →
  _apply_aggregation_rule values rule n = Ok (List.hd VNone (clean_values values)).
Proof.
  intros Hrule Hin Hz.
  assert (Hc : VInt z ∈ clean_values values)
    by (apply list_elem_of_filter; by split).
  assert (Hne : clean_values values ≠ [])
    by (intros Hnil; rewrite Hnil in Hc; by apply elem_of_nil in Hc).
  rewrite apply_nonempty by done.
  destruct (numeric_floats_overflow _ _ Hc Hz) as [e He].
  unfold rule_body.
  apply elem_of_cons in Hrule as [->|Hrule]; [simpl; by rewrite He|].
  apply elem_of_cons in Hrule as [->|Hrule]; [simpl; by rewrite He|].
  apply list_elem_of_singleton in Hrule as ->. simpl. by rewrite He.
Qed.

Lemma X4_overflow_falls_back_witness :
  _apply_aggregation_rule (py:=cpython_3_12) [VNone; VInt 7; VInt (2 ^ 1024)] "mean" 2
  = Ok (List.hd VNone (clean_values [VNone; VInt 7; VInt (2 ^ 1024)])).
Proof.
  apply (X4_overflow_falls_back _ _ _ (2 ^ 1024)).
  - right. left.
  - right. right. left.
  - vm_compute. discriminate.
Defined.

(** ** The matcher: reference year, reference set, mapping *)

Lemma fold_max_year {geom} (l : list (row geom)) (a y : Z) :
  fold_left (fun m r' => Z.max m (year r')) l a = y →
  a <= y ∧ (∀ r, r ∈ l → year r <= y) ∧ (y = a ∨ ∃ r, r ∈ l ∧ year r = y).
Proof.
  revert a. induction l as [|x l IH]; intros a; simpl.
  - intros <-. split; [lia|]. split; [by intros ? ?%elem_of_nil|by left].
  - intros (Ha & Hall & Hy)%IH. split; [lia|]. split.
    + intros r [->|Hr]%elem_of_cons; [lia|by apply Hall].
    + destruct Hy as [->|(r & Hr & Hyr)].
      * destruct (Z.max_spec a (year x)) as [[_ ->]|[_ ->]].
        -- right. exists x. split; [left|done].
        -- by left.
      * right. exists r. split; [by right|done].
Qed.

(** X5: the reference year is the greatest year of the frame: it is the
    year of some row and no row has a later one.  On an empty frame there
    is none. *)
Theorem X5_reference_year_is_max {geom} (self : SpatialMatcher geom)
    (gdf : list (row geom)) :
  match reference_year (determine_reference_year self gdf) with
  | Some y => (∃ r, r ∈ gdf ∧ year r = y) ∧ ∀ r, r ∈ gdf → year r <= y
  | None => gdf = []
  end.
Proof.
  simpl. destruct gdf as [|x l]; [done|]. simpl.
  destruct (fold_max_year l (year x) _ eq_refl) as (Ha & Hall & Hy).
  split.
  - destruct Hy as [Hy|(r & Hr & Hyr)].
    + exists x. split; [left|done].
    + exists r. split; [by right|done].
  - intros r [->|Hr]%elem_of_cons; [done|by apply Hall].
Qed.

#[global] Instance str_le_total : Total str_le.
Proof. intros a b. apply String.leb_total. Qed.

Lemma omap_keys {A} (f : string → option (string * A)) (l : list string) :
  (∀ p, p ∈ l → ∃ a, f p = Some (p, a)) → (omap f l).*1 = l.
Proof.
  induction l as [|p l IH]; intros Hf; [done|].
  simpl. destruct (Hf p) as [a ->]; [left|]. simpl. f_equal.
  apply IH. intros q Hq. apply Hf. by right.
Qed.

Lemma groupby_first_ids {geom} (l : list (row geom)) :
  (groupby_first l).*1 = merge_sort str_le (remove_dups (data_paddock_id <$> l)).
Proof.
  unfold groupby_first. apply omap_keys. intros p Hp.
  rewrite merge_sort_Permutation, elem_of_remove_dups in Hp.
  destruct (first_with_id_is_Some p l Hp) as [r ->]. by eexists.
Qed.

(** X6: the reference set has exactly one line per paddock id of the
    reference year: its ids are those of the rows of the reference year,
    without repetition, in ascending order. *)
Theorem X6_reference_set_one_per_id {geom} (self : SpatialMatcher geom)
    (gdf : list (row geom)) :
  NoDup (reference_paddocks (with_reference self gdf)).*1
  ∧ Sorted str_le (reference_paddocks (with_reference self gdf)).*1
  ∧ ∀ p, p ∈ (reference_paddocks (with_reference self gdf)).*1 ↔
         ∃ r, r ∈ gdf ∧ Some (year r) = max_year gdf ∧ data_paddock_id r = p.
Proof.
  rewrite reference_paddocks_with_reference, groupby_first_ids.
  split; [rewrite merge_sort_Permutation; apply NoDup_remove_dups|].
  split; [apply (Sorted_merge_sort str_le)|].
  intros p. rewrite merge_sort_Permutation, elem_of_remove_dups, list_elem_of_fmap.
  unfold reference_rows. split.
  - intros (r & -> & [Hr Hy]%list_elem_of_In%filter_In). exists r.
    split; [by apply list_elem_of_In|]. split; [|done].
    unfold in_reference_year in Hy. destruct (max_year gdf); [|done].
    by apply Z.eqb_eq in Hy as ->.
  - intros (r & Hr & Hy & <-). exists r. split; [done|].
    apply list_elem_of_In, filter_In. split; [by apply list_elem_of_In|].
    unfold in_reference_year. rewrite <- Hy. apply Z.eqb_refl.
Qed.

Section MappingMore.
Context {geom : Type} `{Shapely geom}.

Lemma drop_duplicates_subset (seen : list string) (l : list (row geom)) r :
  r ∈ drop_duplicates seen l → r ∈ l.
Proof.
  intros [_ Hf]%drop_duplicates_first. by apply first_with_id_elem in Hf as [? _].
Qed.

Lemma historical_rows_subset (gdf : list (row geom)) r :
  r ∈ historical_rows gdf → r ∈ gdf.
Proof.
  unfold historical_rows. rewrite !list_elem_of_In, filter_In. tauto.
Qed.

Lemma reference_rows_subset (gdf : list (row geom)) r :
  r ∈ reference_rows gdf → r ∈ gdf.
Proof.
  unfold reference_rows. rewrite !list_elem_of_In, filter_In. tauto.
Qed.

Lemma mapping_outside_frame (cfg : ETLConfig) (self : SpatialMatcher geom) gdf p :
  p ∉ paddock_ids gdf →
  paddock_mapping (spatial_matching cfg self gdf) !! p = paddock_mapping self !! p.
Proof.
  intros Hp. unfold spatial_matching, create_paddock_mapping. simpl.
  rewrite fold_self_lookup, decide_False.
  - apply (fold_insert_other _ data_paddock_id
             (historical_target cfg (with_reference self gdf))).
    + apply map_historical_insert.
    + intros (r & -> & Hr)%list_elem_of_fmap_1. apply Hp.
      apply list_elem_of_fmap_2.
      by apply historical_rows_subset, (drop_duplicates_subset []).
  - rewrite groupby_first_keys.
    intros (r & -> & Hr)%list_elem_of_fmap_1. apply Hp.
    by apply list_elem_of_fmap_2, reference_rows_subset.
Qed.

Lemma mapping_state_independent (cfg : ETLConfig) (s1 s2 : SpatialMatcher geom) gdf p :
  p ∈ paddock_ids gdf →
  paddock_mapping (spatial_matching cfg s1 gdf) !! p
  = paddock_mapping (spatial_matching cfg s2 gdf) !! p.
Proof.
  intros Hp.
  destruct (decide (p ∈ paddock_ids (reference_rows gdf))) as [Hin|Hout].
  - by rewrite !mapping_reference.
  - apply list_elem_of_fmap_1 in Hp as (r & -> & Hr).
    assert (Hh : r ∈ historical_rows gdf).
    { destruct (row_reference_or_historical gdf r Hr) as [Hc|Hc]; [|done].
      destruct Hout. by apply list_elem_of_fmap_2. }
    destruct (first_with_id_is_Some (data_paddock_id r) (historical_rows gdf))
      as [r1 Hr1]; [by apply list_elem_of_fmap_2|].
    rewrite !(mapping_historical _ _ _ _ _ Hout Hr1). reflexivity.
Qed.

(** X7: the mapping is kept on the matcher from one farm to the next
    and never emptied: processing a frame leaves every entry whose key is
    not a paddock id of that frame as it was. *)
Theorem X7_entries_of_other_farms_stay (cfg : ETLConfig)
    (self : SpatialMatcher geom) (gdf : list (row geom)) (p : string) :
  p ∉ paddock_ids gdf →
  paddock_mapping (spatial_matching cfg self gdf) !! p = paddock_mapping self !! p.
Proof. apply mapping_outside_frame. Qed.

(** X8: what the mapping says of a paddock id of the frame depends on
    the frame alone, not on what the matcher held before. *)
Theorem X8_frame_entries_ignore_history (cfg : ETLConfig)
    (s1 s2 : SpatialMatcher geom) (gdf : list (row geom)) (p : string) :
  p ∈ paddock_ids gdf →
  paddock_mapping (spatial_matching cfg s1 gdf) !! p
  = paddock_mapping (spatial_matching cfg s2 gdf) !! p.
Proof. apply mapping_state_independent. Qed.

(** X9: processing the same frame a second time changes nothing. *)
Theorem X9_matching_idempotent (cfg : ETLConfig) (self : SpatialMatcher geom)
    (gdf : list (row geom)) :
  spatial_matching cfg (spatial_matching cfg self gdf) gdf
  = spatial_matching cfg self gdf.
Proof.
  assert (Hm : paddock_mapping (spatial_matching cfg (spatial_matching cfg self gdf) gdf)
               = paddock_mapping (spatial_matching cfg self gdf)).
  { apply map_eq. intros p.
    destruct (decide (p ∈ paddock_ids gdf)) as [Hin|Hout].
    - by apply mapping_state_independent.
    - by rewrite mapping_outside_frame. }
  unfold spatial_matching, create_paddock_mapping in *. simpl in *.
  by rewrite Hm.
Qed.

(** X10: a paddock that occurs in historical years only is sent to
    another id only when that id is its best match in the reference set,
    with an overlap ratio that is positive and not below the threshold. *)
Theorem X10_remapped_only_above_threshold (cfg : ETLConfig)
    (self : SpatialMatcher geom) (gdf : list (row geom)) (h q : string) :
  h ∈ paddock_ids gdf → h ∉ paddock_ids (reference_rows gdf) →
  paddock_mapping (spatial_matching cfg self gdf) !! h = Some q → q ≠ h →
  ∃ r ratio,
    first_with_id h (historical_rows gdf) = Some r
    ∧ find_best_spatial_match (with_reference self gdf) (geometry r) = (Some q, ratio)
    ∧ SFleb (min_overlap_threshold cfg) ratio = true
    ∧ SFltb (S754_zero false) ratio = true
    ∧ q ∈ paddock_ids (reference_rows gdf).
Proof.
  intros Hh Hout Hq Hne.
  apply list_elem_of_fmap_1 in Hh as (r0 & -> & Hr0).
  assert (Hhist : r0 ∈ historical_rows gdf).
  { destruct (row_reference_or_historical gdf r0 Hr0) as [Hc|Hc]; [|done].
    destruct Hout. by apply list_elem_of_fmap_2. }
  destruct (first_with_id_is_Some (data_paddock_id r0) (historical_rows gdf))
    as [r Hr]; [by apply list_elem_of_fmap_2|].
  rewrite (mapping_historical _ _ _ _ _ Hout Hr) in Hq. injection Hq as Hq.
  pose proof (first_with_id_elem _ _ _ Hr) as [_ Hid].
  unfold historical_target in Hq. rewrite Hid in Hq.
  destruct (find_best_spatial_match _ (geometry r)) as [[b|] ratio] eqn:E; [|done].
  destruct (truthy_id (Some b) && SFleb (min_overlap_threshold cfg) ratio) eqn:Hc;
    [|done].
  subst b. apply andb_true_iff in Hc as [_ Hle].
  exists r, ratio. do 3 (split; [done|]). split.
  - destruct (find_best_spec (with_reference self gdf) (geometry r))
      as [[Hn _]|(p & g & m & l1 & l2 & He & _ & _ & Hpos & _)]; [congruence|].
    rewrite E in He. by injection He as _ ->.
  - apply find_best_in_refs in E.
    by rewrite reference_paddocks_with_reference, groupby_first_keys in E.
Qed.
End MappingMore.

Lemma X7_entries_of_other_farms_stay_witness :
  paddock_mapping
    (spatial_matching default_config
       (spatial_matching default_config new_matcher scenario_farm) remote_farm)
    !! "C"%string
  = paddock_mapping (spatial_matching default_config new_matcher scenario_farm)
    !! "C"%string.
Proof.
  apply X7_entries_of_other_farms_stay. vm_compute.
  intros Hin. repeat (apply elem_of_cons in Hin as [Hin|Hin]; [discriminate Hin|]).
  by apply elem_of_nil in Hin.
Defined.

Lemma X8_frame_entries_ignore_history_witness :
  paddock_mapping
    (spatial_matching default_config
       (spatial_matching default_config new_matcher remote_farm) scenario_farm)
    !! "C"%string
  = paddock_mapping (spatial_matching default_config new_matcher scenario_farm)
    !! "C"%string.
Proof.
  apply X8_frame_entries_ignore_history. vm_compute. right. right. left.
Defined.

Lemma X10_remapped_only_above_threshold_witness :
  ∃ r ratio,
    first_with_id "C" (historical_rows scenario_farm) = Some r
    ∧ find_best_spatial_match (with_reference new_matcher scenario_farm) (geometry r)
      = (Some "A"%string, ratio)
    ∧ SFleb (min_overlap_threshold default_config) ratio = true
    ∧ SFltb (S754_zero false) ratio = true
    ∧ "A"%string ∈ paddock_ids (reference_rows scenario_farm).
Proof.
  apply (X10_remapped_only_above_threshold default_config new_matcher scenario_farm).
  - vm_compute. right. right. left.
  - vm_compute. intros Hin.
    repeat (apply elem_of_cons in Hin as [Hin|Hin]; [discriminate Hin|]).
    by apply elem_of_nil in Hin.
  - vm_compute. reflexivity.
  - discriminate.
Defined.

(** ** [SpatialMatcher.get_mapping_stats] *)

Lemma length_filter_split {A} (P : A → Prop) `{∀ x, Decision (P x)} (l : list A) :
  (length (filter P l) + length (filter (fun x => ¬ P x) l))%nat = length l.
Proof.
  induction l as [|x l IH]; [done|].
  rewrite !filter_cons. destruct (decide (P x)) as [Hx|Hx].
  - rewrite decide_False by tauto. simpl. lia.
  - rewrite decide_True by done. simpl. lia.
Qed.

(** X11: in the statistics, [remapped] is the number of entries whose
    image differs from their key; it is never negative, and
    [self_mapped] and [remapped] add up to [total_paddocks]. *)
Theorem X11_stats_add_up {geom} (self : SpatialMatcher geom) :
  remapped (get_mapping_stats self)
  = Z.of_nat (length (filter (fun kv => fst kv ≠ snd kv)
                             (map_to_list (paddock_mapping self))))
  ∧ 0 <= remapped (get_mapping_stats self)
  ∧ total_paddocks (get_mapping_stats self)
    = self_mapped (get_mapping_stats self) + remapped (get_mapping_stats self).
Proof.
  unfold get_mapping_stats. simpl.
  pose proof (length_filter_split (fun kv : string * string => fst kv = snd kv)
                (map_to_list (paddock_mapping self))) as Hs.
  rewrite length_map_to_list in Hs. lia.
Qed.

Section Stats.
Context {geom : Type} `{Shapely geom}.

Lemma mapping_is_Some (cfg : ETLConfig) (self : SpatialMatcher geom) gdf p :
  p ∈ paddock_ids gdf →
  is_Some (paddock_mapping (spatial_matching cfg self gdf) !! p).
Proof.
  intros (r & -> & Hr)%list_elem_of_fmap_1.
  destruct (decide (data_paddock_id r ∈ paddock_ids (reference_rows gdf))) as [Hin|Hout].
  - rewrite mapping_reference by done. by eexists.
  - assert (Hh : r ∈ historical_rows gdf).
    { destruct (row_reference_or_historical gdf r Hr) as [Hc|Hc]; [|done].
      destruct Hout. by apply list_elem_of_fmap_2. }
    destruct (first_with_id_is_Some (data_paddock_id r) (historical_rows gdf))
      as [r1 Hr1]; [by apply list_elem_of_fmap_2|].
    rewrite (mapping_historical _ _ _ _ _ Hout Hr1). by eexists.
Qed.

(** X12: after a frame is matched, the statistics count at least as
    many self-mapped paddocks as there are reference paddocks, and at
    least as many paddocks as the frame has distinct ids; exactly as many
    when the matcher was new, more only through entries left by earlier
    farms. *)
Theorem X12_stats_after_matching (cfg : ETLConfig) (self : SpatialMatcher geom)
    (gdf : list (row geom)) :
  let stats := get_mapping_stats (spatial_matching cfg self gdf) in
  reference_paddocks_count stats <= self_mapped stats
  ∧ Z.of_nat (length (remove_dups (paddock_ids gdf))) <= total_paddocks stats
  ∧ (paddock_mapping self = ∅ →
     total_paddocks stats = Z.of_nat (length (remove_dups (paddock_ids gdf)))).
Proof.
  set (s := spatial_matching cfg self gdf).
  assert (Hdom : list_to_set (remove_dups (paddock_ids gdf)) ⊆ dom (paddock_mapping s)).
  { intros p Hp. rewrite elem_of_list_to_set, elem_of_remove_dups in Hp.
    apply elem_of_dom. by apply mapping_is_Some. }
  assert (Hlen : size (list_to_set (C:=gset string) (remove_dups (paddock_ids gdf)))
                 = length (remove_dups (paddock_ids gdf)))
    by (apply size_list_to_set, NoDup_remove_dups).
  cbv zeta. unfold get_mapping_stats.
  cbn [reference_paddocks_count self_mapped total_paddocks]. fold s.
  split; [|split].
  - apply inj_le.
    rewrite <- (length_fmap fst (reference_paddocks s)).
    rewrite <- (length_fmap (fun p : string => (p, p)) (reference_paddocks s).*1).
    apply submseteq_length, NoDup_submseteq.
    + apply NoDup_fmap_2; [by intros a b [= ->]|].
      unfold s. rewrite reference_paddocks_spatial_matching,
        reference_paddocks_with_reference, groupby_first_ids, merge_sort_Permutation.
      apply NoDup_remove_dups.
    + intros kv (p & -> & Hp)%list_elem_of_fmap_1.
      apply list_elem_of_filter. split; [done|].
      apply elem_of_map_to_list. apply mapping_reference.
      unfold s in Hp.
      by rewrite reference_paddocks_spatial_matching,
        reference_paddocks_with_reference, groupby_first_keys in Hp.
  - apply inj_le. rewrite <- Hlen, <- (size_dom (D:=gset string)).
    by apply subseteq_size.
  - intros Hempty. f_equal. rewrite <- Hlen, <- (size_dom (D:=gset string)).
    f_equal. apply set_eq. intros p.
    rewrite elem_of_dom, elem_of_list_to_set, elem_of_remove_dups. split.
    + intros Hsome. destruct (decide (p ∈ paddock_ids gdf)) as [|Hout]; [done|].
      unfold s in Hsome. rewrite mapping_outside_frame, Hempty, lookup_empty in Hsome by done.
      by destruct Hsome.
    + apply mapping_is_Some.
Qed.
End Stats.

(** ** [combine_namespace_data] on several records *)

Lemma fold_insert_fun_lookup {V} (f : string → V) (ks : list string)
    (m : gmap string V) (key : string) :
  fold_left (fun m k => <[k := f k]> m) ks m !! key
  = if decide (key ∈ ks) then Some (f key) else m !! key.
Proof.
  revert m. induction ks as [|k ks IH]; intros m.
  - rewrite decide_False by apply not_elem_of_nil. done.
  - simpl fold_left. rewrite IH. destruct (decide (key ∈ ks)) as [Hin|Hin].
    + rewrite decide_True by (by right). done.
    + destruct (decide (key = k)) as [->|Hne].
      * rewrite decide_True by left. by rewrite lookup_insert_eq.
      * rewrite decide_False by (by intros [?|?]%elem_of_cons).
        by rewrite lookup_insert_ne.
Qed.

Section Combine.
Context {py : CPython} {geom : Type}.
Implicit Types (group : list (row geom)).

Lemma all_keys_fold group (s : gset string) key :
  key ∈ fold_left (fun s r => match data r with Some d => s ∪ dom d | None => s end)
                  group s
  ↔ key ∈ s ∨ has_key group key.
Proof.
  revert s. induction group as [|x group IH]; intros s; simpl.
  - split; [by left|]. intros [?|(r & d & []%elem_of_nil & _)]; done.
  - rewrite IH. split.
    + intros [Hs|(r & d & Hr & Hd & Hk)].
      * destruct (data x) as [d|] eqn:Hx; [|by left].
        apply elem_of_union in Hs as [Hs|Hs]; [by left|].
        right. exists x, d. split; [left|]. split; [done|]. by apply elem_of_dom.
      * right. exists r, d. split; [by right|done].
    + intros [Hs|(r & d & Hr & Hd & Hk)].
      * left. destruct (data x); [|done]. apply elem_of_union. by left.
      * apply elem_of_cons in Hr as [->|Hr].
        -- left. rewrite Hd. apply elem_of_union. right. by apply elem_of_dom.
        -- right. by exists r, d.
Qed.

Lemma all_keys_elem group key : key ∈ all_keys group ↔ has_key group key.
Proof.
  unfold all_keys. rewrite all_keys_fold. split; [|by right].
  by intros [?%not_elem_of_empty|?].
Qed.

Lemma values_of_key_nonempty group key :
  has_key group key → values_of_key group key ≠ [].
Proof.
  intros (r & d & Hr & Hd & [v Hv]) Hnil.
  assert (Hin : v ∈ values_of_key group key).
  { apply list_elem_of_omap. exists r. split; [done|]. by rewrite Hd. }
  rewrite Hnil in Hin. by apply elem_of_nil in Hin.
Qed.

Lemma combine_key_aggregated (rules : gmap string string) group (n : Z)
    (key : string) (m : gmap string value) :
  combine_key rules group n (Ok m) key = Ok (<[key := aggregated rules group n key]> m).
Proof.
  unfold combine_key, aggregated. simpl.
  destruct (values_of_key group key) as [|v vs]; [done|].
  by destruct (apply_never_raises (v :: vs)
                 (default "first"%string (rules !! key)) n) as [w ->].
Qed.

Lemma fold_combine_key (rules : gmap string string) group (n : Z)
    (ks : list string) (m : gmap string value) :
  fold_left (combine_key rules group n) ks (Ok m)
  = Ok (fold_left (fun m k => <[k := aggregated rules group n k]> m) ks m).
Proof.
  revert m. induction ks as [|k ks IH]; intros m; [done|].
  cbn [fold_left]. by rewrite combine_key_aggregated, IH.
Qed.

Lemma aggregated_apply (rules : gmap string string) group (n : Z) key :
  has_key group key →
  _apply_aggregation_rule (values_of_key group key)
    (default "first"%string (rules !! key)) n
  = Ok (aggregated rules group n key).
Proof.
  intros Hk%values_of_key_nonempty. unfold aggregated.
  destruct (values_of_key group key) as [|v vs]; [done|].
  by destruct (apply_never_raises (v :: vs)
                 (default "first"%string (rules !! key)) n) as [w ->].
Qed.

(** X13: on a group of several records the combined data has exactly
    the keys that occur in the dict of some record; the value of a key is
    what the rule engine answers on the values the records have for it, in
    the order of the records, under the rule configured for the key
    ("first" when none is).  A record without the key contributes
    nothing, and the call never raises. *)
Theorem X13_combine_several_records (cfg : ETLConfig) group (ns : string) (n : Z) :
  length group ≠ 1%nat →
  ∃ d, combine_namespace_data cfg group ns n = Ok (Some d)
       ∧ ∀ key,
           (has_key group key →
            ∃ v, _apply_aggregation_rule (values_of_key group key)
                   (key_rule cfg ns key) n = Ok v
                 ∧ d !! key = Some v)
           ∧ (¬ has_key group key → d !! key = None).
Proof.
  intros Hlen.
  set (rules := default ∅ (namespace_aggregation_rules cfg !! ns)).
  exists (fold_left (fun m k => <[k := aggregated rules group n k]> m)
                    (elements (all_keys group)) ∅).
  split.
  - unfold combine_namespace_data. fold rules.
    destruct group as [|r [|r' group]]; [|done|];
      by rewrite fold_combine_key.
  - intros key. rewrite fold_insert_fun_lookup. split.
    + intros Hk. exists (aggregated rules group n key). split.
      * by apply aggregated_apply.
      * rewrite decide_True; [done|]. by apply elem_of_elements, all_keys_elem.
    + intros Hk. rewrite decide_False; [apply lookup_empty|].
      by rewrite elem_of_elements, all_keys_elem.
Qed.

(** X14: the combined data does not depend on the order in which the
    keys of the group are visited (the code iterates over a Python set). *)
Theorem X14_combine_any_key_order (rules : gmap string string) group (n : Z)
    (ks : list string) :
  (∀ key, key ∈ ks ↔ has_key group key) →
  fold_left (combine_key rules group n) ks (Ok ∅)
  = fold_left (combine_key rules group n) (elements (all_keys group)) (Ok ∅).
Proof.
  intros Hks. rewrite !fold_combine_key. f_equal. apply map_eq. intros key.
  rewrite !fold_insert_fun_lookup.
  destruct (decide (key ∈ ks)) as [Hin|Hout].
  - rewrite decide_True; [done|]. by apply elem_of_elements, all_keys_elem, Hks.
  - rewrite decide_False; [done|]. by rewrite elem_of_elements, all_keys_elem, <- Hks.
Qed.
End Combine.

Lemma X13_combine_several_records_witness :
  ∃ d, combine_namespace_data (py:=cpython_3_12) default_config merged_records "livestock" 2 = Ok (Some d)
       ∧ ∀ key,
           (has_key merged_records key →
            ∃ v, _apply_aggregation_rule (py:=cpython_3_12) (values_of_key merged_records key)
                   (key_rule default_config "livestock" key) 2 = Ok v
                 ∧ d !! key = Some v)
           ∧ (¬ has_key merged_records key → d !! key = None).
Proof. apply X13_combine_several_records. simpl. lia. Defined.

Lemma X14_combine_any_key_order_witness :
  fold_left (combine_key (py:=cpython_3_12) ∅ merged_records 2)
            ["animal_type"; "animal_count"]%string (Ok ∅)
  = fold_left (combine_key (py:=cpython_3_12) ∅ merged_records 2)
              (elements (all_keys merged_records)) (Ok ∅).
Proof.
  apply X14_combine_any_key_order. intros key.
  rewrite <- all_keys_elem. unfold all_keys, merged_records. simpl.
  rewrite !dom_singleton_L. set_solver.
Defined.

(** ** [normalize_farm_data] on any frame and mapping *)

Lemma omap_group_key_mapped {geom} (m : gmap string string) (gdf : list (row geom)) :
  omap (group_key m) (mapped_rows m gdf) = omap (group_key m) gdf.
Proof.
  unfold mapped_rows. induction gdf as [|x gdf IH]; [done|].
  rewrite filter_cons.
  destruct (decide (is_Some (m !! data_paddock_id x))) as [Hx|Hx].
  - by rewrite !omap_cons_eq, IH.
  - rewrite IH, omap_cons_eq. unfold group_key at 2.
    destruct (m !! data_paddock_id x); [|done]. destruct Hx. by eexists.
Qed.

Lemma filter_key_mapped {geom} (m : gmap string string) (gdf : list (row geom)) k :
  filter (fun r => group_key m r = Some k) (mapped_rows m gdf)
  = filter (fun r => group_key m r = Some k) gdf.
Proof.
  unfold mapped_rows. induction gdf as [|x gdf IH]; [done|].
  rewrite (filter_cons (fun r => is_Some _)).
  destruct (decide (is_Some (m !! data_paddock_id x))) as [Hx|Hx].
  - rewrite !filter_cons, IH. done.
  - rewrite IH, filter_cons, decide_False; [done|].
    unfold group_key. destruct (m !! data_paddock_id x); [|done].
    destruct Hx. by eexists.
Qed.

Lemma groupby_mapped {geom} (m : gmap string string) (gdf : list (row geom)) :
  groupby m (mapped_rows m gdf) = groupby m gdf.
Proof.
  unfold groupby. rewrite omap_group_key_mapped.
  apply list_fmap_ext. intros i k _. by rewrite filter_key_mapped.
Qed.

Lemma remove_dups_length_pos {A} `{EqDecision A} (l : list A) :
  l ≠ [] → (1 ≤ length (remove_dups l) ≤ length l)%nat.
Proof.
  intros Hne. split.
  - destruct l as [|x l]; [done|].
    assert (Hin : x ∈ remove_dups (x :: l)) by (apply elem_of_remove_dups; left).
    destruct (remove_dups (x :: l)); [by apply elem_of_nil in Hin|simpl; lia].
  - apply submseteq_length, NoDup_submseteq; [apply NoDup_remove_dups|].
    intros x. by rewrite elem_of_remove_dups.
Qed.

Section NormalizerMore.
Context {py : CPython} {geom : Type} `{Json}.
Implicit Types (cfg : ETLConfig) (gdf group : list (row geom)).
Implicit Types (paddock_mapping : gmap string string).

(** X15: a record whose paddock id is not a key of the mapping is
    dropped: the output is that of the frame without such records. *)
Theorem X15_unmapped_records_dropped cfg gdf paddock_mapping :
  normalize_farm_data cfg gdf paddock_mapping
  = normalize_farm_data cfg (mapped_rows paddock_mapping gdf) paddock_mapping.
Proof.
  unfold normalize_farm_data, result_data. by rewrite groupby_mapped.
Qed.

Lemma normalize_group_count cfg (k : string * Z * string) group rr :
  normalize_group cfg (k, group) = Ok rr →
  r_original_paddock_count rr = length (remove_dups (data_paddock_id <$> group)).
Proof.
  destruct k as [[p y] ns]. unfold normalize_group. simpl.
  destruct (combine_namespace_data _ _ _ _) as [d|e]; simpl; [|done].
  by intros [= <-].
Qed.

Lemma groupby_group_nonempty paddock_mapping gdf k group :
  (k, group) ∈ groupby paddock_mapping gdf → group ≠ [].
Proof.
  intros Hg. pose proof (groupby_elem _ _ _ _ Hg) as ->.
  apply (list_elem_of_fmap_2 fst) in Hg. simpl in Hg.
  apply groupby_key_elem in Hg as (r & Hr & Hk).
  intros Hnil.
  assert (Hin : r ∈ filter (fun r => group_key paddock_mapping r = Some k) gdf)
    by (by apply list_elem_of_filter).
  rewrite Hnil in Hin. by apply elem_of_nil in Hin.
Qed.

(** X16: the paddock count handed to the rule engine is at least 1 and
    at most the number of records of the group, so that inside
    [normalize_farm_data] rule "divide_by_paddock_count" never meets the
    count 0 for which it keeps the plain sum. *)
Theorem X16_paddock_count_positive cfg gdf paddock_mapping :
  ∃ rd, result_data cfg gdf paddock_mapping = Ok rd
        ∧ ∀ rr, rr ∈ rd →
            (1 ≤ r_original_paddock_count rr
             ≤ length (filter (fun r => group_key paddock_mapping r = Some (r_key3 rr))
                              gdf))%nat.
Proof.
  destruct (result_data_total cfg gdf paddock_mapping) as [rd Hrd].
  exists rd. split; [done|]. intros rr Hin.
  destruct (result_data_from_group _ _ _ _ _ Hrd Hin) as (g & Hg & Hn).
  rewrite (normalize_group_count _ _ _ _ Hn).
  pose proof (groupby_group_nonempty _ _ _ _ Hg) as Hne.
  rewrite <- (groupby_elem _ _ _ _ Hg).
  rewrite <- (length_fmap data_paddock_id g).
  apply remove_dups_length_pos. by destruct g.
Qed.

(** X17: the output has one row per (paddock, year) key and one column
    per namespace, without repetition; every row has a cell for every
    column; a row key is the image and the year of some record of the
    frame, and a column is the namespace of some record. *)
Theorem X17_output_shape cfg gdf paddock_mapping :
  ∃ t, normalize_farm_data cfg gdf paddock_mapping = Ok t
       ∧ NoDup (rows t).*1 ∧ NoDup (columns t)
       ∧ Forall (fun row => length (snd row) = length (columns t)) (rows t)
       ∧ (∀ k, k ∈ (rows t).*1 →
               ∃ r, r ∈ gdf ∧ paddock_mapping !! data_paddock_id r = Some (fst k)
                    ∧ year r = snd k)
       ∧ (∀ c, c ∈ columns t → ∃ r, r ∈ gdf ∧ namespace r = c).
Proof.
  destruct (result_data_total cfg gdf paddock_mapping) as [rd Hrd].
  exists (pivot_table rd). split; [by apply normalize_farm_data_pivot|].
  split; [apply pivot_index_NoDup|].
  assert (Hsrc : ∀ rr, rr ∈ kept_rows rd →
            ∃ r, r ∈ gdf ∧ group_key paddock_mapping r = Some (r_key3 rr)).
  { intros rr [Hin _]%kept_rows_elem.
    destruct (result_data_from_group _ _ _ _ _ Hrd Hin) as (g & Hg & _).
    apply (list_elem_of_fmap_2 fst) in Hg. by apply groupby_key_elem in Hg. }
  split; [|split; [|split]].
  - unfold pivot_table. simpl. rewrite merge_sort_Permutation. apply NoDup_remove_dups.
  - unfold pivot_table. simpl. apply Forall_fmap, Forall_forall.
    intros k _. simpl. apply length_fmap.
  - intros k (rr & Hrr & <-)%pivot_index_elem.
    destruct (Hsrc rr Hrr) as (r & Hr & Hk). exists r. split; [done|].
    unfold group_key in Hk. destruct (paddock_mapping !! data_paddock_id r); [|done].
    simpl in Hk. unfold r_key3 in Hk. by injection Hk as -> -> _.
  - intros c (rr & Hrr & <-)%pivot_columns_elem.
    destruct (Hsrc rr Hrr) as (r & Hr & Hk). exists r. split; [done|].
    unfold group_key in Hk. destruct (paddock_mapping !! data_paddock_id r); [|done].
    simpl in Hk. unfold r_key3 in Hk. by injection Hk as _ _ ->.
Qed.

(** X18: a cell with a value holds the serialisation of the combined
    data of the group of its row and column, and that data is not empty:
    the output never carries a serialised empty dict. *)
Theorem X18_cell_is_combined_data cfg gdf paddock_mapping t
    (k : string * Z) (c s : string) :
  normalize_farm_data cfg gdf paddock_mapping = Ok t →
  cell t k c = Some s →
  ∃ group d,
    ((k, c), group) ∈ groupby paddock_mapping gdf
    ∧ combine_namespace_data cfg group c
        (Z.of_nat (length (remove_dups (data_paddock_id <$> group)))) = Ok (Some d)
    ∧ d ≠ ∅ ∧ s = json_dumps d.
Proof.
  intros Ht Hc.
  destruct (result_data_total cfg gdf paddock_mapping) as [rd Hrd].
  rewrite (normalize_farm_data_pivot _ _ _ _ Hrd) in Ht. injection Ht as <-.
  destruct (cell_from_result _ _ _ _ _ _ _ Hrd Hc) as (rr & Hin & Hkey & Hdata).
  destruct (result_data_from_group _ _ _ _ _ Hrd Hin) as (g & Hg & Hn).
  rewrite Hkey in Hg, Hn.
  apply normalize_group_inv in Hn as (_ & d & Hd & Hcell). simpl in Hd.
  rewrite Hdata in Hcell. unfold data_cell in Hcell.
  destruct (truthy_data d) eqn:Htr; [|done].
  destruct d as [d|]; [|done]. simpl in Hcell. injection Hcell as ->.
  exists g, d. do 2 (split; [done|]). split; [|done].
  intros ->. simpl in Htr. by rewrite map_to_list_empty in Htr.
Qed.

(** X19: when no record of the frame has its paddock id in the mapping
    (an empty frame, for one), the result is the empty frame. *)
Theorem X19_nothing_mapped_gives_empty cfg gdf paddock_mapping :
  (∀ r, r ∈ gdf → paddock_mapping !! data_paddock_id r = None) →
  normalize_farm_data cfg gdf paddock_mapping = Ok (Table [] []).
Proof.
  intros Hnone.
  assert (Hk : omap (group_key paddock_mapping) gdf = []).
  { induction gdf as [|x gdf IH]; [done|]. rewrite omap_cons_eq.
    unfold group_key at 1. rewrite (Hnone x) by left. simpl.
    apply IH. intros r Hr. apply Hnone. by right. }
  unfold normalize_farm_data, result_data, groupby. by rewrite Hk.
Qed.
End NormalizerMore.

Section Pipeline.
Context {geom : Type} `{Shapely geom}.

(** X20: with the mapping that the matcher has built from a frame, the
    normaliser drops no record of that frame: each one belongs to the
    group of its image, year and namespace. *)
Theorem X20_pipeline_keeps_every_record (cfg : ETLConfig)
    (self : SpatialMatcher geom) (gdf : list (row geom)) (r : row geom) :
  r ∈ gdf →
  ∃ q group,
    paddock_mapping (spatial_matching cfg self gdf) !! data_paddock_id r = Some q
    ∧ ((q, year r, namespace r), group)
        ∈ groupby (paddock_mapping (spatial_matching cfg self gdf)) gdf
    ∧ r ∈ group.
Proof.
  intros Hr.
  destruct (mapping_is_Some cfg self gdf (data_paddock_id r)) as [q Hq];
    [by apply list_elem_of_fmap_2|].
  set (m := paddock_mapping (spatial_matching cfg self gdf)) in *.
  assert (Hkey : group_key m r = Some (q, year r, namespace r))
    by (unfold group_key; by rewrite Hq).
  assert (Hk : (q, year r, namespace r) ∈ (groupby m gdf).*1)
    by (apply groupby_key_elem; by exists r).
  apply list_elem_of_fmap_1 in Hk as ([k g] & Hk & Hin). simpl in Hk. subst k.
  exists q, g. do 2 (split; [done|]).
  rewrite (groupby_elem _ _ _ _ Hin). by apply list_elem_of_filter.
Qed.
End Pipeline.

Lemma X18_cell_is_combined_data_witness :
  ∃ group d,
    ((("A"%string, 2023), "production"%string), group)
      ∈ groupby settled_mapping settled_farm
    ∧ combine_namespace_data (py:=cpython_3_12) default_config group "production"
        (Z.of_nat (length (remove_dups (data_paddock_id <$> group)))) = Ok (Some d)
    ∧ d ≠ ∅ ∧ "{total_yield}"%string = json_dumps (Json:=keys_json) d.
Proof.
  apply (X18_cell_is_combined_data (H:=keys_json) default_config settled_farm
           settled_mapping
           (Table ["production"%string] [(("A"%string, 2023), [Some "{total_yield}"%string])])).
  - vm_compute. reflexivity.
  - vm_compute. reflexivity.
Defined.

Lemma X19_nothing_mapped_gives_empty_witness :
  normalize_farm_data (py:=cpython_3_12) (H:=keys_json) default_config remote_farm ∅ = Ok (Table [] []).
Proof. apply X19_nothing_mapped_gives_empty. intros r _. apply lookup_empty. Defined.

Lemma X20_pipeline_keeps_every_record_witness :
  ∃ q group,
    paddock_mapping (spatial_matching default_config new_matcher scenario_farm)
      !! "C"%string = Some q
    ∧ ((q, 2022, "production"%string), group)
        ∈ groupby (paddock_mapping (spatial_matching default_config new_matcher
                                      scenario_farm)) scenario_farm
    ∧ Row 3 2022 "production" (Some {[ "total_yield"%string := VInt 100 ]})
          "C" (Box 0 0 5 10) 10 ∈ group.
Proof.
  apply (X20_pipeline_keeps_every_record default_config new_matcher scenario_farm
           (Row 3 2022 "production" (Some {[ "total_yield"%string := VInt 100 ]})
                "C" (Box 0 0 5 10) 10)).
  right. right. left.
Defined.

(** ** Failures of shapely, fixed points of the mapping, locality of a cell *)

Section MatcherFailures.
Context {geom : Type} `{Shapely geom}.

Lemma fold_match_skip_raising (h : geom) (refs : list (string * geom)) acc :
  fold_left (match_step h) refs acc
  = fold_left (match_step h)
      (filter (fun rp => is_Some (intersection h (snd rp))) refs) acc.
Proof.
  revert acc. induction refs as [|rp refs IH]; intros acc; [done|].
  rewrite filter_cons. destruct (decide (is_Some (intersection h (snd rp)))) as [Hs|Hn].
  - simpl. apply IH.
  - simpl. rewrite match_step_skip_raise; [apply IH|].
    destruct (intersection h (snd rp)); [|done]. destruct Hn. by eexists.
Qed.

(** X21: a candidate on which shapely raises is skipped and the loop
    goes on: the answer is the one computed from the other candidates. *)
Theorem X21_raising_candidates_skipped (self : SpatialMatcher geom) (h : geom) :
  find_best_spatial_match self h
  = find_best_spatial_match
      (Matcher (reference_year self)
         (filter (fun rp => is_Some (intersection h (snd rp))) (reference_paddocks self))
         (paddock_mapping self)) h.
Proof. unfold find_best_spatial_match. simpl. apply fold_match_skip_raising. Qed.

Lemma mapping_image (cfg : ETLConfig) (self : SpatialMatcher geom) gdf p q :
  p ∈ paddock_ids gdf →
  paddock_mapping (spatial_matching cfg self gdf) !! p = Some q →
  q ∈ paddock_ids (reference_rows gdf) ∨ q = p.
Proof.
  intros (r & -> & Hr)%list_elem_of_fmap_1 Hq.
  destruct (decide (data_paddock_id r ∈ paddock_ids (reference_rows gdf))) as [Hin|Hout].
  - rewrite mapping_reference in Hq by done. injection Hq as <-. by right.
  - assert (Hh : r ∈ historical_rows gdf).
    { destruct (row_reference_or_historical gdf r Hr) as [Hc|Hc]; [|done].
      destruct Hout. by apply list_elem_of_fmap_2. }
    destruct (first_with_id_is_Some (data_paddock_id r) (historical_rows gdf))
      as [r1 Hr1]; [by apply list_elem_of_fmap_2|].
    rewrite (mapping_historical _ _ _ _ _ Hout Hr1) in Hq. injection Hq as <-.
    pose proof (first_with_id_elem _ _ _ Hr1) as [_ <-].
    destruct (historical_target_cases cfg (with_reference self gdf) r1) as [Ht|Ht];
      [left|by right].
    by rewrite reference_paddocks_with_reference, groupby_first_keys in Ht.
Qed.

(** X22: the image of a paddock id of the frame is a fixed point of the
    mapping: applying the mapping twice is applying it once, there are no
    chains of renamings. *)
Theorem X22_images_are_fixed_points (cfg : ETLConfig) (self : SpatialMatcher geom)
    (gdf : list (row geom)) (p q : string) :
  p ∈ paddock_ids gdf →
  paddock_mapping (spatial_matching cfg self gdf) !! p = Some q →
  paddock_mapping (spatial_matching cfg self gdf) !! q = Some q.
Proof.
  intros Hp Hq. destruct (mapping_image _ _ _ _ _ Hp Hq) as [Hr| ->]; [|done].
  by apply mapping_reference.
Qed.
End MatcherFailures.

Lemma X22_images_are_fixed_points_witness :
  paddock_mapping (spatial_matching default_config new_matcher scenario_farm)
    !! "A"%string = Some "A"%string.
Proof.
  apply (X22_images_are_fixed_points default_config new_matcher scenario_farm "C").
  - vm_compute. right. right. left.
  - vm_compute. reflexivity.
Defined.

Section CellLocality.
Context {py : CPython} {geom : Type} `{Json}.
Implicit Types (cfg : ETLConfig) (gdf group : list (row geom)).
Implicit Types (paddock_mapping : gmap string string).

Lemma filter_filter_same {A} (P : A → Prop) `{∀ x, Decision (P x)} (l : list A) :
  filter P (filter P l) = filter P l.
Proof.
  induction l as [|x l IH]; [done|]. rewrite filter_cons.
  destruct (decide (P x)) as [Hx|Hx]; [|done].
  by rewrite filter_cons, decide_True, IH.
Qed.

Lemma cell_of_group cfg gdf paddock_mapping rd k c group d :
  result_data cfg gdf paddock_mapping = Ok rd →
  ((k, c), group) ∈ groupby paddock_mapping gdf →
  combine_namespace_data cfg group c
    (Z.of_nat (length (remove_dups (data_paddock_id <$> group)))) = Ok d →
  cell (pivot_table rd) k c = data_cell d.
Proof.
  intros Hrd Hg Hd.
  destruct (result_data_of_group _ _ _ _ _ _ Hrd Hg) as (rr & Hin & Hn).
  apply normalize_group_inv in Hn as (Hkey & d' & Hd' & Hdata).
  simpl in Hd'. rewrite Hd in Hd'. injection Hd' as <-.
  rewrite <- Hdata.
  unfold r_key3 in Hkey. injection Hkey as <- <-.
  by apply (cell_of_result cfg gdf paddock_mapping).
Qed.

(** X23: a cell depends on the records of its own group only: the cell
    of row (paddock, year) and column namespace is the same when the frame
    is cut down to the records that the mapping sends to that paddock, in
    that year and namespace.  Records of another paddock, year or
    namespace never leak into it. *)
Theorem X23_cell_depends_on_its_group cfg gdf paddock_mapping
    (k : string * Z) (c : string) :
  ∃ t t',
    normalize_farm_data cfg gdf paddock_mapping = Ok t
    ∧ normalize_farm_data cfg
        (filter (fun r => group_key paddock_mapping r = Some (k, c)) gdf)
        paddock_mapping = Ok t'
    ∧ cell t k c = cell t' k c.
Proof.
  set (g := filter (fun r => group_key paddock_mapping r = Some (k, c)) gdf).
  destruct (result_data_total cfg gdf paddock_mapping) as [rd Hrd].
  destruct (result_data_total cfg g paddock_mapping) as [rd' Hrd'].
  exists (pivot_table rd), (pivot_table rd').
  split; [by apply normalize_farm_data_pivot|].
  split; [by apply normalize_farm_data_pivot|].
  destruct (decide ((k, c) ∈ (groupby paddock_mapping gdf).*1)) as [Hin|Hout].
  - apply list_elem_of_fmap_1 in Hin as ([k' g0] & Hk & Hg0). simpl in Hk. subst k'.
    pose proof (groupby_elem _ _ _ _ Hg0) as Hg. fold g in Hg. subst g0.
    assert (Hin' : (k, c) ∈ (groupby paddock_mapping g).*1).
    { apply (list_elem_of_fmap_2 fst) in Hg0. simpl in Hg0.
      apply groupby_key_elem in Hg0 as (r & Hr & Hkr).
      apply groupby_key_elem. exists r. split; [|done].
      by apply list_elem_of_filter. }
    apply list_elem_of_fmap_1 in Hin' as ([k' g1] & Hk & Hg1). simpl in Hk. subst k'.
    pose proof (groupby_elem _ _ _ _ Hg1) as Hg. unfold g in Hg.
    rewrite filter_filter_same in Hg. fold g in Hg. subst g1.
    destruct (combine_total cfg g c
                (Z.of_nat (length (remove_dups (data_paddock_id <$> g))))) as [d Hd].
    rewrite (cell_of_group _ _ _ _ _ _ _ _ Hrd Hg0 Hd).
    by rewrite (cell_of_group _ _ _ _ _ _ _ _ Hrd' Hg1 Hd).
  - rewrite (cell_without_group _ _ _ _ _ _ Hrd Hout).
    symmetry. apply (cell_without_group cfg g paddock_mapping); [done|].
    intros (r & [Hkr Hr]%list_elem_of_filter & _)%groupby_key_elem.
    apply Hout, groupby_key_elem. by exists r.
Qed.
End CellLocality.
